(** * A4 grid layout and pagination of [batch_images_to_a4_pdf_with_logging.py]

    A shallow embedding of [create_a4_pdf] and [batch_process_folder].

    Numbers: the script computes positions with Python floats; here every
    coordinate is an exact rational ([Q]), so the statements below are about
    the arithmetic the code writes down, not about rounding: an equality or
    a non-strict bound between computed coordinates holds exactly here and
    up to rounding (some 1e-14 points) in the program.  Pixel sizes of
    images are Python ints ([Z]); list indices and page numbers are [nat].

    Effects: the canvas, the logging calls and the completed saves are
    threaded through a small state-and-exception monad; everything the
    script asks of the operating system, Pillow or reportlab is answered by
    a [World].  The state records what the script asks for, in order: the
    drawing calls, the logging calls (which of them reach the log file is
    decided by the configured level, see [emitted]) and the calls of
    [c.save()] that returned.  What else is on the disk (folders made by
    [os.makedirs], the remains of a save that failed, a file replaced by a
    later save to the same path) is not part of it. *)

From Stdlib Require Import QArith Lqa Lia OrdersEx.
From stdpp Require Import base option list sorting strings.

Open Scope Q_scope.

(** ** Numbers *)

Definition Qnat (n : nat) : Q := inject_Z (Z.of_nat n).

Definition Qltb (a b : Q) : bool := negb (Qle_bool b a).

(** Python's [a / b] on numbers: [ZeroDivisionError] when [b] is zero. *)
Definition truediv (a b : Q) : option Q :=
  if Qeq_bool b 0 then None else Some (a / b).

(** ** Grid geometry (lines 72-81 and 130-135 of [create_a4_pdf]) *)

(** A rectangle given, as reportlab does, by its lower-left corner and its
    extent. *)
Record Box : Type := mkBox { box_x : Q; box_y : Q; box_w : Q; box_h : Q }.

Section Grid.
Variables pageWidth pageHeight margin innerMargin : Q.

Definition effective_width : Q := pageWidth - 2 * margin.
Definition effective_height : Q := pageHeight - 2 * margin.

Definition img_width : Q := (effective_width - innerMargin) / 2.
Definition img_height : Q := (effective_height - 2 * innerMargin) / 3.

Definition cell_x (col : nat) : Q :=
  margin + Qnat col * (img_width + innerMargin).

Definition cell_y (row : nat) : Q :=
  pageHeight - margin - Qnat (row + 1) * img_height - Qnat row * innerMargin.

Definition computeCellBox (row col : nat) : Box :=
  mkBox (cell_x col) (cell_y row) img_width img_height.

(** The rectangle [margin, pageWidth - margin] x [margin, pageHeight - margin]. *)
Definition effective_area : Box :=
  mkBox margin margin effective_width effective_height.
End Grid.

(** [col = i % 2], [row = i // 2]; the pair is (row, col). *)
Definition slot_cell (i : nat) : nat * nat := ((i / 2)%nat, (i mod 2)%nat).

(** The six cells of a page, in slot order. *)
Definition grid_cells : list (nat * nat) := slot_cell <$> seq 0 6.

(** A box of non-negative extent; a negative width or height would put
    the anchor on the wrong side of the box. *)
Definition box_proper (b : Box) : Prop := 0 <= box_w b /\ 0 <= box_h b.

(** A box lies within another one: both of its corners do.  This says what
    it should for proper boxes only. *)
Definition box_inside (b a : Box) : Prop :=
  box_x a <= box_x b /\ box_x b + box_w b <= box_x a + box_w a /\
  box_y a <= box_y b /\ box_y b + box_h b <= box_y a + box_h a.

(** Two boxes are separated along one of the axes. *)
Definition box_apart (b1 b2 : Box) : Prop :=
  box_x b1 + box_w b1 < box_x b2 \/ box_x b2 + box_w b2 < box_x b1 \/
  box_y b1 + box_h b1 < box_y b2 \/ box_y b2 + box_h b2 < box_y b1.

(** Two boxes are more than [d] apart along one of the axes. *)
Definition box_clear (d : Q) (b1 b2 : Box) : Prop :=
  box_x b1 + box_w b1 + d < box_x b2 \/ box_x b2 + box_w b2 + d < box_x b1 \/
  box_y b1 + box_h b1 + d < box_y b2 \/ box_y b2 + box_h b2 + d < box_y b1.

(** The points of a (closed) box. *)
Definition in_box (px py : Q) (b : Box) : Prop :=
  box_x b <= px <= box_x b + box_w b /\ box_y b <= py <= box_y b + box_h b.

(** ** Scale to fit (lines 115-127 and 140-141) *)

Record Placement : Type := mkPlacement {
  scale : Q;
  new_width : Q;
  new_height : Q;
  offsetX : Q;
  offsetY : Q
}.

Definition computePlacement (imgWidth imgHeight : Z) (cellWidth cellHeight : Q)
  : option Placement :=
  img_ratio ← truediv (inject_Z imgWidth) (inject_Z imgHeight);
  target_ratio ← truediv cellWidth cellHeight;
  scale ← (if Qltb target_ratio img_ratio
           then truediv cellWidth (inject_Z imgWidth)
           else truediv cellHeight (inject_Z imgHeight));
  let new_width := inject_Z imgWidth * scale in
  let new_height := inject_Z imgHeight * scale in
  Some (mkPlacement scale new_width new_height
          ((cellWidth - new_width) / 2) ((cellHeight - new_height) / 2)).

(** ** The page size

    [A4] comes from [reportlab.lib.pagesizes]: [(210*mm, 297*mm)] with
    [mm = 72/25.4] points, taken here as exact rationals. *)
Definition mm : Q := 720 # 254.
Definition A4 : Q * Q := (210 * mm, 297 * mm).

Definition a4_width : Q := fst A4.
Definition a4_height : Q := snd A4.
Definition margin : Q := 40.
Definition inner_margin : Q := 20.

(** ** Pagination (lines 84-95) *)

Definition images_per_page : nat := 6.

Definition total_pages (total_images : nat) : nat :=
  ((total_images + images_per_page - 1) / images_per_page)%nat.

(** Python's [l[a:b]] for non-negative [a] and [b]. *)
Definition slice {A} (l : list A) (a b : nat) : list A :=
  take (b - a) (drop a l).

Definition page_images {A} (image_paths : list A) (page_num : nat) : list A :=
  let start_idx := (page_num * images_per_page)%nat in
  let end_idx :=
    Nat.min ((page_num + 1) * images_per_page) (length image_paths) in
  slice image_paths start_idx end_idx.

(** The slices the page loop goes through, in order. *)
Definition paginate {A} (image_paths : list A) : list (list A) :=
  page_images image_paths <$> seq 0 (total_pages (length image_paths)).

(** ** The world outside the script *)

(** What the script finds behind an image path. *)
Inductive FileStatus : Type :=
| Missing                       (* [os.path.exists] answers False *)
| Undecodable                   (* [Image.open] or [img.verify] raises *)
| Decoded (width height : Z) (drawable : bool).
                                (* decodes; [c.drawImage] raises unless [drawable] *)

Record World : Type := mkWorld {
  canvas_ok : bool;                       (* [canvas.Canvas(...)] returns *)
  save_ok : bool;                         (* [c.save()] returns *)
  file : string -> FileStatus;
  basename : string -> string;            (* [os.path.basename] *)
  stringWidth : string -> Q;              (* [c.stringWidth(_, "Helvetica", 8)] *)
  isdir : string -> bool;                 (* [os.path.isdir] *)
  makedirs_ok : string -> bool;           (* [os.makedirs(_, exist_ok=True)] returns *)
  glob : string -> list string;           (* [glob.glob] *)
  path_join : string -> string -> string; (* [os.path.join] *)
  timestamp : string                      (* [datetime.now().strftime(...)] *)
}.

Inductive Exn : Type :=
| NotADirectoryError
| OSError
| ZeroDivisionError
| UnidentifiedImageError
| DrawError
| CanvasError
| SaveError.

Inductive Level : Type := DEBUG | INFO | WARNING | ERROR.

(** One constructor per logging call of the script. *)
Inductive LogMsg : Type :=
| PlannedPages (total_pages : nat)                 (* line 88 *)
| PageStarted (page_num count : nat)               (* line 97 *)
| ImageMissing (img_path : string)                 (* line 104 *)
| ImageAdded (img_filename : string)               (* line 157 *)
| ImageFailed (img_path : string) (e : Exn)        (* line 160 *)
| PdfGenerated (output_pdf : string)               (* line 169 *)
| PdfFailed (output_pdf : string) (e : Exn)        (* line 173 *)
| OutputFolder (output_folder : string)            (* line 196 *)
| FilesFound (count : nat) (ext : string)          (* line 203 *)
| ImagesFound (input_folder : string) (total_images : nat)  (* line 210 *)
| NoImages                                         (* line 213 *)
| ProcessingAll (total_images : nat)               (* line 222 *)
| BatchDone                                        (* line 225 *)
| BatchFailed (e : Exn).                           (* line 229 *)

(** What reportlab's canvas is asked to draw. *)
Inductive Op : Type :=
| DrawImage (img_path : string) (x y width height : Q)
| SetFont (name : string) (size : Z)
| DrawString (x y : Q) (text : string).

(** The pages closed by [showPage], oldest first, and the page being drawn. *)
Record Canvas : Type := mkCanvas {
  finished : list (list Op);
  current : list Op
}.

(** The pages of the canvas at a given moment: the closed ones, then the
    one being drawn.  (When saving, reportlab writes the page being drawn
    only if something was drawn on it; which pages end up in the file is
    not modelled.) *)
Definition canvas_pages (c : Canvas) : list (list Op) :=
  finished c ++ [current c].

(** [st_log]: the logging calls made, oldest first.  [st_files]: for every
    call of [c.save()] that returned, the path and the canvas saved, newest
    first. *)
Record State : Type := mkState {
  st_canvas : Canvas;
  st_log : list (Level * LogMsg);
  st_files : list (string * Canvas)
}.

(** ** State and exceptions *)

Inductive Result (A : Type) : Type :=
| Ok (a : A)
| Raise (e : Exn).
Arguments Ok {A} a.
Arguments Raise {A} e.

Definition M (A : Type) : Type := State -> Result A * State.

#[global] Instance M_ret : MRet M := fun A a s => (Ok a, s).

#[global] Instance M_bind : MBind M := fun A B f m s =>
  match m s with
  | (Ok a, s') => f a s'
  | (Raise e, s') => (Raise e, s')
  end.

Definition raise {A} (e : Exn) : M A := fun s => (Raise e, s).

(** [try: body except Exception as e: handler e]; what [body] did to the
    state before raising stays done. *)
Definition try_except {A} (body : M A) (handler : Exn -> M A) : M A :=
  fun s =>
    match body s with
    | (Ok a, s') => (Ok a, s')
    | (Raise e, s') => handler e s'
    end.

Definition from_option {A} (e : Exn) (o : option A) : M A :=
  match o with
  | Some a => mret a
  | None => raise e
  end.

Fixpoint for_each {A} (l : list A) (body : A -> M unit) : M unit :=
  match l with
  | [] => mret tt
  | x :: l' => body x;; for_each l' body
  end.

Definition enumerate {A} (l : list A) : list (nat * A) := imap pair l.

(** A call of [logging.debug], [.info], [.warning] or [.error]. *)
Definition logging (lvl : Level) (msg : LogMsg) : M unit :=
  fun s => (Ok tt, mkState (st_canvas s) (st_log s ++ [(lvl, msg)]) (st_files s)).

(** Python's numeric levels. *)
Definition levelno (lvl : Level) : Z :=
  match lvl with
  | DEBUG => 10
  | INFO => 20
  | WARNING => 30
  | ERROR => 40
  end%Z.

(** [setup_logging], line 43: [logging.basicConfig(level=logging.INFO, ...)]. *)
Definition configured_level : Level := INFO.

(** The records that reach the log file and the console, of the logging
    calls [lg]: those at the configured level or above. *)
Definition emitted (lg : list (Level * LogMsg)) : list (Level * LogMsg) :=
  filter (fun r => (levelno configured_level <= levelno (fst r))%Z) lg.

(** ** The canvas *)

Definition with_canvas (f : Canvas -> Canvas) : M unit :=
  fun s => (Ok tt, mkState (f (st_canvas s)) (st_log s) (st_files s)).

Definition emit (op : Op) : M unit :=
  with_canvas (fun c => mkCanvas (finished c) (current c ++ [op])).

Definition new_canvas (w : World) : M unit :=
  if canvas_ok w then with_canvas (fun _ => mkCanvas [] [])
  else raise CanvasError.

Definition drawImage (w : World) (img_path : string) (x y width height : Q)
  : M unit :=
  match file w img_path with
  | Decoded _ _ true => emit (DrawImage img_path x y width height)
  | _ => raise DrawError
  end.

Definition showPage : M unit :=
  with_canvas (fun c => mkCanvas (finished c ++ [current c]) []).

(** [c.save()]: when it returns, the save is recorded; when it raises,
    nothing is recorded (what it may have left on the disk is not
    modelled). *)
Definition save (w : World) (output_pdf : string) : M unit :=
  fun s =>
    if save_ok w
    then (Ok tt, mkState (st_canvas s) (st_log s)
                   ((output_pdf, st_canvas s) :: st_files s))
    else (Raise SaveError, s).

(** ** Pillow *)

Definition path_exists (w : World) (img_path : string) : bool :=
  match file w img_path with
  | Missing => false
  | _ => true
  end.

(** [with Image.open(img_path) as img]: the size of the decoded image. *)
Definition Image_open (w : World) (img_path : string) : M (Z * Z) :=
  match file w img_path with
  | Decoded width height _ => mret (width, height)
  | _ => raise UnidentifiedImageError
  end.

(** ** [create_a4_pdf] *)

(** Lines 101-161: the body of the loop over [enumerate(page_images)]. *)
Definition place_image (w : World) (i : nat) (img_path : string) : M unit :=
  let img_width := img_width a4_width margin inner_margin in
  let img_height := img_height a4_height margin inner_margin in
  try_except
    (if negb (path_exists w img_path) then
       logging WARNING (ImageMissing img_path)
     else
       Image_open w img_path;;
       img ← Image_open w img_path;
       pl ← from_option ZeroDivisionError
              (computePlacement (fst img) (snd img) img_width img_height);
       let col := (i mod 2)%nat in
       let row := (i / 2)%nat in
       let x := cell_x a4_width margin inner_margin col in
       let y := cell_y a4_height margin inner_margin row in
       drawImage w img_path (x + offsetX pl) (y + offsetY pl)
         (new_width pl) (new_height pl);;
       let img_filename := basename w img_path in
       emit (SetFont "Helvetica" 8);;
       let text_width := stringWidth w img_filename in
       let text_x := x + (img_width - text_width) / 2 in
       let text_y := y - 15 in
       emit (DrawString text_x text_y img_filename);;
       logging DEBUG (ImageAdded (basename w img_path)))
    (fun e => logging ERROR (ImageFailed img_path e)).

(** Lines 92-165: the body of the loop over [range(total_pages)]. *)
Definition place_page (w : World) (image_paths : list string) (page_num : nat)
  : M unit :=
  let page_images := page_images image_paths page_num in
  logging DEBUG (PageStarted (page_num + 1) (length page_images));;
  for_each (enumerate page_images) (fun '(i, img_path) => place_image w i img_path);;
  if (page_num <? total_pages (length image_paths) - 1)%nat
  then showPage
  else mret tt.

Definition create_a4_pdf (w : World) (image_paths : list string)
    (output_pdf : string) : M bool :=
  try_except
    (new_canvas w;;
     logging INFO (PlannedPages (total_pages (length image_paths)));;
     for_each (seq 0 (total_pages (length image_paths))) (place_page w image_paths);;
     save w output_pdf;;
     logging INFO (PdfGenerated output_pdf);;
     mret true)
    (fun e => logging ERROR (PdfFailed output_pdf e);; mret false).

(** ** [batch_process_folder] *)

Definition default_extensions : list string :=
  ["*.jpg"; "*.jpeg"; "*.png"; "*.gif"; "*.bmp"]%string.

(** [os.makedirs(folder, exist_ok=True)]: only whether it raises matters
    here; the folder it makes is not part of the state. *)
Definition makedirs (w : World) (folder : string) : M unit :=
  if makedirs_ok w folder then mret tt else raise OSError.

(** Lines 199-203: the loop that gathers the matches of every pattern. *)
Fixpoint collect_images (w : World) (input_folder : string)
    (image_extensions : list string) (image_files : list string)
  : M (list string) :=
  match image_extensions with
  | [] => mret image_files
  | ext :: rest =>
      let found_files := glob w (path_join w input_folder ext) in
      logging DEBUG (FilesFound (length found_files) ext);;
      collect_images w input_folder rest (image_files ++ found_files)
  end.

(** [list.sort()] on strings: code-point order. *)
Definition name_le (a b : string) : Prop := String.leb a b = true.

#[global] Instance name_le_dec : RelDecision name_le :=
  fun a b => decide (String.leb a b = true).

Definition sort_names (l : list string) : list string :=
  merge_sort name_le l.

Definition batch_process_folder (w : World) (input_folder : string)
    (output_folder : option string) (image_extensions : list string) : M bool :=
  try_except
    ((if negb (isdir w input_folder) then raise NotADirectoryError else mret tt);;
     let output_folder :=
       default (path_join w input_folder "pdf_output") output_folder in
     makedirs w output_folder;;
     logging INFO (OutputFolder output_folder);;
     image_files ← collect_images w input_folder image_extensions [];
     let image_files := sort_names image_files in
     let total_images := length image_files in
     logging INFO (ImagesFound input_folder total_images);;
     if (total_images =? 0)%nat then
       logging WARNING NoImages;;
       mret false
     else
       let pdf_filename := ("images_" ++ timestamp w ++ ".pdf")%string in
       let pdf_path := path_join w output_folder pdf_filename in
       logging INFO (ProcessingAll total_images);;
       create_a4_pdf w image_files pdf_path;;
       logging INFO BatchDone;;
       mret true)
    (fun e => logging ERROR (BatchFailed e);; mret false).

Definition initial_state : State := mkState (mkCanvas [] []) [] [].

(** ** What a run leaves on the canvas

    Pure descriptions of the effects of the loops above; the theorems relate
    them to [create_a4_pdf]. *)

(** What is drawn for an entry assigned to the cell (row, col). *)
Definition cell_ops (w : World) (row col : nat) (img_path : string) : list Op :=
  match file w img_path with
  | Decoded width height true =>
      let b := computeCellBox a4_width a4_height margin inner_margin row col in
      match computePlacement width height (box_w b) (box_h b) with
      | Some pl =>
          [DrawImage img_path (box_x b + offsetX pl) (box_y b + offsetY pl)
             (new_width pl) (new_height pl);
           SetFont "Helvetica" 8;
           DrawString
             (box_x b + (box_w b - stringWidth w (basename w img_path)) / 2)
             (box_y b - 15) (basename w img_path)]
      | None => []
      end
  | _ => []
  end.

(** The entry is drawn: the file decodes, the ratios are defined and
    [drawImage] accepts it. *)
Definition placed (w : World) (img_path : string) : bool :=
  match file w img_path with
  | Decoded width height true =>
      bool_decide (is_Some
        (computePlacement width height
           (img_width a4_width margin inner_margin)
           (img_height a4_height margin inner_margin)))
  | _ => false
  end.

(** What is drawn for the entry at position [i] of its page. *)
Definition entry_ops (w : World) (i : nat) (img_path : string) : list Op :=
  cell_ops w (i / 2) (i mod 2) img_path.

Definition page_ops (w : World) (page : list string) : list Op :=
  concat (imap (entry_ops w) page).

Definition append_ops (ops : list Op) (c : Canvas) : Canvas :=
  mkCanvas (finished c) (current c ++ ops).

Definition close_page (c : Canvas) : Canvas :=
  mkCanvas (finished c ++ [current c]) [].

Definition page_step (w : World) (image_paths : list string) (page_num : nat)
    (c : Canvas) : Canvas :=
  let c' := append_ops (page_ops w (page_images image_paths page_num)) c in
  if (page_num <? total_pages (length image_paths) - 1)%nat
  then close_page c'
  else c'.

Definition run_all {A} (step : A -> Canvas -> Canvas) (l : list A) (c : Canvas)
  : Canvas :=
  foldl (fun c x => step x c) c l.

(** The pages of the canvas [create_a4_pdf] saves: one per slice; for an
    empty list, the untouched page of the fresh canvas. *)
Definition document_pages (w : World) (image_paths : list string)
  : list (list Op) :=
  match paginate image_paths with
  | [] => [[]]
  | pages => page_ops w <$> pages
  end.

(** [m] returns normally, leaves the files alone, only adds to the log, and
    changes the canvas by [f]. *)
Definition draws (m : M unit) (f : Canvas -> Canvas) : Prop :=
  forall s, exists lg,
    m s = (Ok tt, mkState (f (st_canvas s)) (st_log s ++ lg) (st_files s)).

(** The image paths of the [drawImage] calls of a page, in order. *)
Definition drawn_images (ops : list Op) : list string :=
  ops ≫= fun op =>
    match op with
    | DrawImage img_path _ _ _ _ => [img_path]
    | _ => []
    end.

(** The rectangles of the [drawImage] calls of a page, in order. *)
Definition image_boxes (ops : list Op) : list Box :=
  ops ≫= fun op =>
    match op with
    | DrawImage _ x y width height => [mkBox x y width height]
    | _ => []
    end.

(** ** Statements about the grid and about skipped entries *)

(** The six cells are proper boxes, lie in the effective area and are
    pairwise apart. *)
Definition grid_ok (pageWidth pageHeight margin innerMargin : Q) : Prop :=
  forall row col, (row < 3)%nat -> (col < 2)%nat ->
    box_proper (computeCellBox pageWidth pageHeight margin innerMargin row col) /\
    box_inside (computeCellBox pageWidth pageHeight margin innerMargin row col)
      (effective_area pageWidth pageHeight margin) /\
    forall row' col', (row' < 3)%nat -> (col' < 2)%nat ->
      (row, col) <> (row', col') ->
      box_apart (computeCellBox pageWidth pageHeight margin innerMargin row col)
        (computeCellBox pageWidth pageHeight margin innerMargin row' col').

(** Compaction: on every page the k-th image drawn sits in the cell of slot
    k, as if the skipped entries were not on the page. *)
Definition compacted (c : Canvas) : Prop :=
  forall p ops k b,
    canvas_pages c !! p = Some ops ->
    image_boxes ops !! k = Some b ->
    box_inside b
      (computeCellBox a4_width a4_height margin inner_margin
         (fst (slot_cell k)) (snd (slot_cell k))).

(** The scale chosen by the branch on the two aspect ratios. *)
Definition fit_scale (imgWidth imgHeight : Z) (cellWidth cellHeight : Q) : Q :=
  if Qltb (cellWidth / cellHeight) (inject_Z imgWidth / inject_Z imgHeight)
  then cellWidth / inject_Z imgWidth
  else cellHeight / inject_Z imgHeight.

(** ** Example worlds *)

Definition join_slash (a b : string) : string := (a ++ "/" ++ b)%string.

(** A folder [in] with two PNG files; [a.png] has vanished by the time it is
    placed, every other file is a 100 x 50 image. *)
Definition world_missing_a : World :=
  mkWorld true true
    (fun p => if String.eqb p "in/a.png" then Missing else Decoded 100 50 true)
    (fun p => p) (fun _ => 10) (fun _ => true) (fun _ => true)
    (fun pat => if String.eqb pat "in/*.png"
                then ["in/b.png"; "in/a.png"]%string else [])
    join_slash "20240101_120000".

(** The same folder, intact, but the document cannot be written. *)
Definition world_save_fails : World :=
  mkWorld true false
    (fun _ => Decoded 100 50 true)
    (fun p => p) (fun _ => 10) (fun _ => true) (fun _ => true)
    (fun pat => if String.eqb pat "in/*.png"
                then ["in/b.png"; "in/a.png"]%string else [])
    join_slash "20240101_120000".

(** A folder without images. *)
Definition world_empty_folder : World :=
  mkWorld true true
    (fun _ => Missing)
    (fun p => p) (fun _ => 10) (fun _ => true) (fun _ => true)
    (fun _ => [])
    join_slash "20240101_120000".

(** Thirteen entries, all decodable in [world_missing_a]. *)
Definition thirteen_images : list string :=
  ["in/01.png"; "in/02.png"; "in/03.png"; "in/04.png"; "in/05.png";
   "in/06.png"; "in/07.png"; "in/08.png"; "in/09.png"; "in/10.png";
   "in/11.png"; "in/12.png"; "in/13.png"]%string.

(** ** Descriptions used for the further properties *)

(** The files [batch_process_folder] gathers, before sorting. *)
Definition found_images (w : World) (input_folder : string)
    (image_extensions : list string) : list string :=
  concat ((fun ext => glob w (path_join w input_folder ext))
          <$> image_extensions).

(** Where [batch_process_folder] writes the document. *)
Definition pdf_path (w : World) (input_folder : string)
    (output_folder : option string) : string :=
  path_join w (default (path_join w input_folder "pdf_output") output_folder)
    ("images_" ++ timestamp w ++ ".pdf")%string.

(** The texts of the [drawString] calls of a page, in order. *)
Definition captions (ops : list Op) : list string :=
  ops ≫= fun op =>
    match op with
    | DrawString _ _ text => [text]
    | _ => []
    end.

(** Decoded images have a positive width and height. *)
Definition sizes_positive (w : World) : Prop :=
  forall img_path width height drawable,
    file w img_path = Decoded width height drawable ->
    (0 < width)%Z /\ (0 < height)%Z.

(** The cell of the A4 grid for the entry at position [i]. *)
Definition cell_of (i : nat) : Box :=
  computeCellBox a4_width a4_height margin inner_margin
    (fst (slot_cell i)) (snd (slot_cell i)).

(** The record the loop body logs for an entry. *)
Definition entry_record (w : World) (img_path : string) : Level * LogMsg :=
  match file w img_path with
  | Missing => (WARNING, ImageMissing img_path)
  | Undecodable => (ERROR, ImageFailed img_path UnidentifiedImageError)
  | Decoded width height drawable =>
      match computePlacement width height
              (img_width a4_width margin inner_margin)
              (img_height a4_height margin inner_margin) with
      | None => (ERROR, ImageFailed img_path ZeroDivisionError)
      | Some _ =>
          if drawable then (DEBUG, ImageAdded (basename w img_path))
          else (ERROR, ImageFailed img_path DrawError)
      end
  end.

(** The records of a page: its start, then one record per entry. *)
Definition page_log (w : World) (image_paths : list string) (page_num : nat)
  : list (Level * LogMsg) :=
  (DEBUG, PageStarted (page_num + 1) (length (page_images image_paths page_num)))
  :: (entry_record w <$> page_images image_paths page_num).

(** [m] returns normally, leaves the files alone, changes the canvas by [f]
    and logs exactly [lg]. *)
Definition runs (m : M unit) (f : Canvas -> Canvas)
    (lg : list (Level * LogMsg)) : Prop :=
  forall s,
    m s = (Ok tt, mkState (f (st_canvas s)) (st_log s ++ lg) (st_files s)).

(** * Theorems *)

(** * Pagination *)

Section Pagination.
Context {A : Type}.
Implicit Types (l : list A) (p i k : nat).

Lemma total_pages_bounds (n : nat) :
  (n <= 6 * total_pages n < n + 6)%nat.
Proof.
  unfold total_pages, images_per_page.
  pose proof (Nat.div_mod_eq (n + 6 - 1) 6) as E.
  pose proof (Nat.mod_upper_bound (n + 6 - 1) 6) as B.
  lia.
Qed.

Lemma page_images_take l p :
  page_images l p = take 6 (drop (p * 6) l).
Proof.
  unfold page_images, slice, images_per_page.
  destruct (Nat.le_gt_cases ((p + 1) * 6) (length l)) as [Hle | Hgt].
  - f_equal. lia.
  - rewrite Nat.min_r by lia.
    rewrite !take_ge; [done | | ]; rewrite length_drop; lia.
Qed.

Lemma length_page_images l p :
  length (page_images l p)
  = (Nat.min ((p + 1) * 6) (length l) - p * 6)%nat.
Proof. rewrite page_images_take, length_take, length_drop. lia. Qed.

Lemma page_images_lookup l p i :
  (i < length (page_images l p))%nat ->
  page_images l p !! i = l !! (p * 6 + i)%nat.
Proof.
  rewrite page_images_take. intros Hi.
  rewrite length_take in Hi.
  rewrite lookup_take_lt by lia. apply lookup_drop.
Qed.

Lemma concat_pages_take l k :
  concat (page_images l <$> seq 0 k) = take (k * 6) l.
Proof.
  induction k as [| k IH]; [done |].
  rewrite seq_S, fmap_app, concat_app, IH. simpl.
  rewrite app_nil_r, page_images_take, take_take_drop.
  f_equal. lia.
Qed.

Lemma length_paginate l : length (paginate l) = total_pages (length l).
Proof. unfold paginate. by rewrite length_fmap, length_seq. Qed.

Lemma paginate_lookup l p :
  (p < total_pages (length l))%nat ->
  paginate l !! p = Some (page_images l p).
Proof.
  intros Hp. unfold paginate.
  rewrite list_lookup_fmap, lookup_seq_lt by done. done.
Qed.

Lemma concat_paginate l : concat (paginate l) = l.
Proof.
  unfold paginate. rewrite concat_pages_take.
  apply take_ge. pose proof (total_pages_bounds (length l)). lia.
Qed.

(** C3. Pagination of N entries yields ceil(N/6) pages (the least k with
    N <= 6k); page p holds exactly the entries at input indices
    [p*6, min((p+1)*6, N)), in order; the pages concatenated give back the
    input. *)
Theorem paginate_partition l :
  ((length l <= 6 * length (paginate l))%nat /\
   forall k, (length l <= 6 * k)%nat -> (length (paginate l) <= k)%nat) /\
  (forall p, (p < length (paginate l))%nat ->
     exists page,
       paginate l !! p = Some page /\
       length page = (Nat.min ((p + 1) * 6) (length l) - p * 6)%nat /\
       forall i, (i < length page)%nat -> page !! i = l !! (p * 6 + i)%nat) /\
  concat (paginate l) = l.
Proof.
  rewrite length_paginate.
  pose proof (total_pages_bounds (length l)) as B.
  split; [| split].
  - split; [lia | intros k Hk; lia].
  - intros p Hp. exists (page_images l p).
    split; [by apply paginate_lookup |].
    split; [apply length_page_images |].
    intros i Hi. by apply page_images_lookup.
  - apply concat_paginate.
Qed.
End Pagination.

(** * Scale to fit *)

Lemma truediv_nonzero (a b : Q) : ~ b == 0 -> truediv a b = Some (a / b).
Proof.
  intros Hb. unfold truediv.
  destruct (Qeq_bool b 0) eqn:E; [| done].
  by apply Qeq_bool_eq in E.
Qed.

Lemma Qltb_lt (a b : Q) : Qltb a b = true <-> a < b.
Proof.
  unfold Qltb. rewrite negb_true_iff, <- not_true_iff_false, Qle_bool_iff.
  split; [apply Qnot_le_lt | apply Qlt_not_le].
Qed.

Lemma Qltb_ge (a b : Q) : Qltb a b = false <-> b <= a.
Proof.
  unfold Qltb. rewrite negb_false_iff. apply Qle_bool_iff.
Qed.

Lemma inject_Z_pos (z : Z) : (0 < z)%Z -> 0 < inject_Z z.
Proof. intros Hz. unfold Qlt. simpl. lia. Qed.

Section Fit.
Variables (imgWidth imgHeight : Z) (cellWidth cellHeight : Q).
Hypothesis imgWidth_pos : (0 < imgWidth)%Z.
Hypothesis imgHeight_pos : (0 < imgHeight)%Z.
Hypothesis cellWidth_pos : 0 < cellWidth.
Hypothesis cellHeight_pos : 0 < cellHeight.

Lemma computePlacement_defined :
  computePlacement imgWidth imgHeight cellWidth cellHeight =
  let scale := fit_scale imgWidth imgHeight cellWidth cellHeight in
  Some (mkPlacement scale
          (inject_Z imgWidth * scale) (inject_Z imgHeight * scale)
          ((cellWidth - inject_Z imgWidth * scale) / 2)
          ((cellHeight - inject_Z imgHeight * scale) / 2)).
Proof.
  pose proof (inject_Z_pos _ imgWidth_pos) as Hw.
  pose proof (inject_Z_pos _ imgHeight_pos) as Hh.
  unfold computePlacement, fit_scale.
  rewrite (truediv_nonzero (inject_Z imgWidth) (inject_Z imgHeight)) by lra.
  rewrite (truediv_nonzero cellWidth cellHeight) by lra.
  rewrite (truediv_nonzero cellWidth (inject_Z imgWidth)) by lra.
  rewrite (truediv_nonzero cellHeight (inject_Z imgHeight)) by lra.
  simpl. by destruct (Qltb _ _).
Qed.

Lemma ratio_lt_cross :
  cellWidth / cellHeight < inject_Z imgWidth / inject_Z imgHeight <->
  cellWidth * inject_Z imgHeight < inject_Z imgWidth * cellHeight.
Proof.
  pose proof (inject_Z_pos _ imgHeight_pos) as Hh.
  set (iw := inject_Z imgWidth) in *. set (ih := inject_Z imgHeight) in *.
  assert (0 < / (cellHeight * ih)) as Ht by (apply Qinv_lt_0_compat; nra).
  assert (iw / ih - cellWidth / cellHeight
          == (iw * cellHeight - cellWidth * ih) * / (cellHeight * ih)) as E
    by (field; lra).
  set (t := / (cellHeight * ih)) in *.
  split; intros H; nra.
Qed.

(** C4. For an image and a cell of positive width and height, the scale of
    [computePlacement] makes the image no wider and no taller than the cell,
    with equality on at least one axis. *)
Theorem computePlacement_fits :
  exists pl,
    computePlacement imgWidth imgHeight cellWidth cellHeight = Some pl /\
    inject_Z imgWidth * scale pl <= cellWidth /\
    inject_Z imgHeight * scale pl <= cellHeight /\
    (inject_Z imgWidth * scale pl == cellWidth \/
     inject_Z imgHeight * scale pl == cellHeight).
Proof.
  pose proof (inject_Z_pos _ imgWidth_pos) as Hw.
  pose proof (inject_Z_pos _ imgHeight_pos) as Hh.
  eexists. split; [apply computePlacement_defined |]. simpl.
  unfold fit_scale.
  destruct (Qltb _ _) eqn:E.
  - apply Qltb_lt, ratio_lt_cross in E.
    set (iw := inject_Z imgWidth) in *. set (ih := inject_Z imgHeight) in *.
    assert (iw * (cellWidth / iw) == cellWidth) as Ew by (field; lra).
    assert (ih * (cellWidth / iw) == cellWidth * ih * / iw) as Eh
      by (field; lra).
    assert (0 < / iw) as Ht by (by apply Qinv_lt_0_compat).
    assert (iw * / iw == 1) as Ei by (field; lra).
    rewrite Ew, Eh. split; [lra |]. split; [| by left].
    set (t := / iw) in *. nra.
  - apply Qltb_ge in E.
    assert (~ cellWidth / cellHeight < inject_Z imgWidth / inject_Z imgHeight)
      as N by lra.
    rewrite ratio_lt_cross in N.
    set (iw := inject_Z imgWidth) in *. set (ih := inject_Z imgHeight) in *.
    assert (ih * (cellHeight / ih) == cellHeight) as Eh by (field; lra).
    assert (iw * (cellHeight / ih) == iw * cellHeight * / ih) as Ew
      by (field; lra).
    assert (0 < / ih) as Ht by (by apply Qinv_lt_0_compat).
    assert (ih * / ih == 1) as Ei by (field; lra).
    rewrite Ew, Eh. split; [| split; [lra | by right]].
    set (t := / ih) in *. nra.
Qed.

(** C5. For an image and a cell of positive width and height,
    [computePlacement] returns the scale cellWidth/imgWidth when
    imgWidth/imgHeight > cellWidth/cellHeight and cellHeight/imgHeight
    otherwise, and the offsets (cellWidth - imgWidth*scale)/2 and
    (cellHeight - imgHeight*scale)/2; these centre the scaled image: the
    space left of it equals the space right of it, and likewise below and
    above. *)
Theorem computePlacement_scale_offsets :
  exists pl,
    computePlacement imgWidth imgHeight cellWidth cellHeight = Some pl /\
    (cellWidth / cellHeight < inject_Z imgWidth / inject_Z imgHeight ->
     scale pl = cellWidth / inject_Z imgWidth) /\
    (~ cellWidth / cellHeight < inject_Z imgWidth / inject_Z imgHeight ->
     scale pl = cellHeight / inject_Z imgHeight) /\
    offsetX pl = (cellWidth - inject_Z imgWidth * scale pl) / 2 /\
    offsetY pl = (cellHeight - inject_Z imgHeight * scale pl) / 2 /\
    new_width pl = inject_Z imgWidth * scale pl /\
    new_height pl = inject_Z imgHeight * scale pl /\
    offsetX pl == cellWidth - (offsetX pl + new_width pl) /\
    offsetY pl == cellHeight - (offsetY pl + new_height pl).
Proof.
  pose proof (inject_Z_pos _ imgWidth_pos) as Hw.
  pose proof (inject_Z_pos _ imgHeight_pos) as Hh.
  eexists. split; [apply computePlacement_defined |]. simpl.
  unfold fit_scale.
  destruct (Qltb _ _) eqn:E.
  - apply Qltb_lt in E.
    repeat split; try done; field; lra.
  - apply Qltb_ge in E.
    repeat split; try done; try (field; lra). intros H. exfalso. lra.
Qed.
End Fit.

(** A 100 x 50 image in a cell of the A4 grid. *)
Lemma computePlacement_fits_a4_cell :
  (0 < 100)%Z /\ (0 < 50)%Z /\
  0 < img_width a4_width margin inner_margin /\
  0 < img_height a4_height margin inner_margin /\
  exists pl,
    computePlacement 100 50 (img_width a4_width margin inner_margin)
      (img_height a4_height margin inner_margin) = Some pl /\
    inject_Z 100 * scale pl <= img_width a4_width margin inner_margin /\
    inject_Z 50 * scale pl <= img_height a4_height margin inner_margin /\
    (inject_Z 100 * scale pl == img_width a4_width margin inner_margin \/
     inject_Z 50 * scale pl == img_height a4_height margin inner_margin).
Proof.
  assert (0 < img_width a4_width margin inner_margin) as Hw
    by (vm_compute; reflexivity).
  assert (0 < img_height a4_height margin inner_margin) as Hh
    by (vm_compute; reflexivity).
  split; [lia |]. split; [lia |]. split; [exact Hw |]. split; [exact Hh |].
  apply (computePlacement_fits 100 50); [lia | lia | exact Hw | exact Hh].
Defined.

Lemma computePlacement_scale_offsets_a4_cell :
  (0 < 100)%Z /\ (0 < 50)%Z /\
  0 < img_width a4_width margin inner_margin /\
  0 < img_height a4_height margin inner_margin /\
  exists pl,
    computePlacement 100 50 (img_width a4_width margin inner_margin)
      (img_height a4_height margin inner_margin) = Some pl /\
    (img_width a4_width margin inner_margin
     / img_height a4_height margin inner_margin
     < inject_Z 100 / inject_Z 50 ->
     scale pl = img_width a4_width margin inner_margin / inject_Z 100) /\
    (~ img_width a4_width margin inner_margin
       / img_height a4_height margin inner_margin
       < inject_Z 100 / inject_Z 50 ->
     scale pl = img_height a4_height margin inner_margin / inject_Z 50) /\
    offsetX pl
    = (img_width a4_width margin inner_margin - inject_Z 100 * scale pl) / 2 /\
    offsetY pl
    = (img_height a4_height margin inner_margin - inject_Z 50 * scale pl) / 2 /\
    new_width pl = inject_Z 100 * scale pl /\
    new_height pl = inject_Z 50 * scale pl /\
    offsetX pl
    == img_width a4_width margin inner_margin - (offsetX pl + new_width pl) /\
    offsetY pl
    == img_height a4_height margin inner_margin - (offsetY pl + new_height pl).
Proof.
  assert (0 < img_width a4_width margin inner_margin) as Hw
    by (vm_compute; reflexivity).
  assert (0 < img_height a4_height margin inner_margin) as Hh
    by (vm_compute; reflexivity).
  split; [lia |]. split; [lia |]. split; [exact Hw |]. split; [exact Hh |].
  apply (computePlacement_scale_offsets 100 50); [lia | lia | exact Hh].
Defined.

(** * The grid *)

Lemma box_apart_no_common_point (b1 b2 : Box) (px py : Q) :
  box_apart b1 b2 -> in_box px py b1 -> in_box px py b2 -> False.
Proof. unfold box_apart, in_box. intros H H1 H2. lra. Qed.

Lemma box_inside_points (b a : Box) (px py : Q) :
  box_inside b a -> in_box px py b -> in_box px py a.
Proof. unfold box_inside, in_box. intros H H1. lra. Qed.

Lemma img_width_twice (W M I : Q) :
  2 * img_width W M I == effective_width W M - I.
Proof. unfold img_width. field. Qed.

Lemma img_height_thrice (H M I : Q) :
  3 * img_height H M I == effective_height H M - 2 * I.
Proof. unfold img_height. field. Qed.

(** Reduces a statement about concrete cells to linear arithmetic over the
    cell width and height. *)
Ltac grid_arith W H M I :=
  pose proof (img_width_twice W M I);
  pose proof (img_height_thrice H M I);
  unfold box_inside, box_apart, computeCellBox, effective_area, cell_x, cell_y;
  cbn [box_x box_y box_w box_h];
  repeat match goal with
    | |- context [Qnat ?n] =>
        let v := eval vm_compute in (Qnat n) in change (Qnat n) with v
    end;
  unfold effective_width, effective_height in *;
  lra.

Section Cells.
Variables pageWidth pageHeight margin innerMargin : Q.
Hypothesis gutter_pos : 0 < innerMargin.
Hypothesis width_pos : 0 < effective_width pageWidth margin.
Hypothesis height_pos : 0 < effective_height pageHeight margin.

Lemma cell_inside (row col : nat) :
  (row < 3)%nat -> (col < 2)%nat ->
  box_inside (computeCellBox pageWidth pageHeight margin innerMargin row col)
    (effective_area pageWidth pageHeight margin).
Proof.
  intros Hr Hc.
  destruct row as [| [| [| row]]]; [| | | lia];
    (destruct col as [| [| col]]; [| | lia]);
    grid_arith pageWidth pageHeight margin innerMargin.
Qed.

Lemma cells_apart (row col row' col' : nat) :
  (row < 3)%nat -> (col < 2)%nat -> (row' < 3)%nat -> (col' < 2)%nat ->
  (row, col) <> (row', col') ->
  box_apart (computeCellBox pageWidth pageHeight margin innerMargin row col)
    (computeCellBox pageWidth pageHeight margin innerMargin row' col').
Proof.
  intros Hr Hc Hr' Hc' Hne.
  destruct row as [| [| [| row]]]; [| | | lia];
    (destruct col as [| [| col]]; [| | lia]);
    (destruct row' as [| [| [| row']]]; [| | | lia]);
    (destruct col' as [| [| col']]; [| | lia]);
    try done;
    grid_arith pageWidth pageHeight margin innerMargin.
Qed.
End Cells.

Section ProperCells.
Variables pageWidth pageHeight margin innerMargin : Q.
Hypothesis gutter_pos : 0 < innerMargin.
Hypothesis cell_width_pos : 0 < img_width pageWidth margin innerMargin.
Hypothesis cell_height_pos : 0 < img_height pageHeight margin innerMargin.

Lemma effective_area_positive :
  0 < effective_width pageWidth margin /\
  0 < effective_height pageHeight margin.
Proof.
  pose proof (img_width_twice pageWidth margin innerMargin).
  pose proof (img_height_thrice pageHeight margin innerMargin).
  split; lra.
Qed.

(** C6 (amended). For every page size and margins with a positive inner
    margin and cells of positive width and height (the inner margin is
    less than the effective width, and twice the inner margin less than the
    effective height), the six cell boxes of rows 0..2 and columns 0..1 are
    proper boxes, lie within the effective drawing area and are pairwise
    disjoint. *)
Theorem grid_cells_disjoint_inside :
  grid_ok pageWidth pageHeight margin innerMargin.
Proof.
  destruct effective_area_positive as [Hw Hh].
  intros row col Hr Hc. split; [| split].
  - unfold box_proper, computeCellBox. cbn [box_w box_h]. lra.
  - by apply cell_inside.
  - intros row' col' Hr' Hc' Hne. by apply cells_apart.
Qed.
End ProperCells.

(** * Effects *)

Lemma draws_ret : draws (mret tt) id.
Proof. intros [c lg fs]. exists []. simpl. by rewrite app_nil_r. Qed.

Lemma draws_logging lvl msg : draws (logging lvl msg) id.
Proof. intros s. by exists [(lvl, msg)]. Qed.

Lemma draws_with_canvas f : draws (with_canvas f) f.
Proof. intros s. exists []. unfold with_canvas. by rewrite app_nil_r. Qed.

Lemma draws_emit op : draws (emit op) (append_ops [op]).
Proof. apply draws_with_canvas. Qed.

Lemma draws_bind (m1 m2 : M unit) f g :
  draws m1 f -> draws m2 g -> draws (m1;; m2) (g ∘ f).
Proof.
  intros H1 H2 s. destruct (H1 s) as [lg1 E1].
  destruct (H2 (mkState (f (st_canvas s)) (st_log s ++ lg1) (st_files s)))
    as [lg2 E2].
  exists (lg1 ++ lg2). unfold mbind, M_bind. rewrite E1, E2. simpl.
  by rewrite app_assoc.
Qed.

Lemma draws_ext (m : M unit) f g :
  (forall c, f c = g c) -> draws m f -> draws m g.
Proof. intros E H s. destruct (H s) as [lg Hs]. exists lg. by rewrite <- E. Qed.

Lemma draws_try (m : M unit) handler f :
  draws m f -> draws (try_except m handler) f.
Proof.
  intros H s. destruct (H s) as [lg Hs]. exists lg.
  unfold try_except. by rewrite Hs.
Qed.

Lemma draws_for_each {A} (body : A -> M unit) step (l : list A) :
  (forall x, draws (body x) (step x)) ->
  draws (for_each l body) (run_all step l).
Proof.
  intros Hbody. induction l as [| x l IH]; simpl.
  - apply draws_ret.
  - eapply draws_ext; [| exact (draws_bind _ _ _ _ (Hbody x) IH)]. done.
Qed.

Lemma append_ops_nil c : append_ops [] c = c.
Proof. destruct c. unfold append_ops. simpl. by rewrite app_nil_r. Qed.

Lemma append_ops_app ops1 ops2 c :
  append_ops ops2 (append_ops ops1 c) = append_ops (ops1 ++ ops2) c.
Proof. unfold append_ops. simpl. by rewrite app_assoc. Qed.

(** The loop body never lets an exception out; it draws the entry in the
    cell of its position [i], or nothing. *)
Lemma place_image_draws w i img_path :
  draws (place_image w i img_path) (append_ops (entry_ops w i img_path)).
Proof.
  intros [[fin cur] lg0 fs].
  unfold place_image, entry_ops, cell_ops, try_except, path_exists,
    Image_open, drawImage, emit, with_canvas, logging, append_ops,
    from_option, mbind, M_bind, mret, M_ret, raise.
  cbn [box_x box_y box_w box_h computeCellBox].
  destruct (file w img_path) as [| | width height drawable];
    cbn -[Nat.div Nat.modulo computePlacement];
    try (eexists; by rewrite app_nil_r).
  destruct (computePlacement _ _ _ _) as [pl |], drawable;
    cbn -[Nat.div Nat.modulo computePlacement];
    try (eexists; by rewrite app_nil_r).
  eexists. by rewrite <- !app_assoc.
Qed.

Lemma run_all_cons {A} (step : A -> Canvas -> Canvas) x l c :
  run_all step (x :: l) c = run_all step l (step x c).
Proof. done. Qed.

Lemma run_all_entries w (page : list string) (k : nat) c :
  run_all (fun '(i, img_path) => append_ops (entry_ops w i img_path))
    (imap (fun j x => ((k + j)%nat, x)) page) c
  = append_ops (concat (imap (fun j => entry_ops w (k + j)) page)) c.
Proof.
  revert k c. induction page as [| x page IH]; intros k c.
  - simpl. by rewrite append_ops_nil.
  - rewrite !imap_cons, run_all_cons. cbn [concat].
    rewrite Nat.add_0_r.
    rewrite (imap_ext _ (fun j x => ((S k + j)%nat, x)) page)
      by (intros; simpl; f_equal; lia).
    rewrite (imap_ext (_ ∘ S) (fun j => entry_ops w (S k + j)) page)
      by (intros; simpl; f_equal; lia).
    by rewrite IH, append_ops_app.
Qed.

Lemma place_page_draws w image_paths page_num :
  draws (place_page w image_paths page_num) (page_step w image_paths page_num).
Proof.
  unfold place_page, page_step.
  set (more := (page_num <? total_pages (length image_paths) - 1)%nat).
  assert (draws (if more then showPage else mret tt)
            (fun c => if more then close_page c else c)) as Hlast.
  { destruct more; [apply (draws_with_canvas close_page) | apply draws_ret]. }
  assert (draws
            (for_each (enumerate (page_images image_paths page_num))
               (fun '(i, img_path) => place_image w i img_path))
            (append_ops (page_ops w (page_images image_paths page_num))))
    as Hpage.
  { eapply draws_ext;
      [| apply (draws_for_each _
                  (fun '(i, img_path) => append_ops (entry_ops w i img_path)));
         intros [i img_path]; apply place_image_draws].
    intros c. apply (run_all_entries w _ 0 c). }
  eapply draws_ext;
    [| exact (draws_bind _ _ _ _ (draws_logging _ _)
                (draws_bind _ _ _ _ Hpage Hlast))].
  done.
Qed.

Lemma pages_loop_draws w image_paths l :
  draws (for_each l (place_page w image_paths))
    (run_all (page_step w image_paths) l).
Proof. apply draws_for_each. intros n. apply place_page_draws. Qed.

(** The pages left on the canvas by the page loop. *)
Lemma run_all_pages w image_paths (k a : nat) c :
  (a + k = total_pages (length image_paths))%nat ->
  canvas_pages (run_all (page_step w image_paths) (seq a k) c)
  = match k with
    | O => canvas_pages c
    | S k' =>
        finished c
        ++ [current c ++ page_ops w (page_images image_paths a)]
        ++ ((page_ops w ∘ page_images image_paths) <$> seq (S a) k')
    end.
Proof.
  revert a c. induction k as [| k IH]; intros a c Hk; [done |].
  cbn [seq]. rewrite run_all_cons, IH by lia. unfold page_step.
  destruct k as [| k].
  - replace (a <? _)%nat with false by (symmetry; apply Nat.ltb_ge; lia).
    done.
  - replace (a <? _)%nat with true by (symmetry; apply Nat.ltb_lt; lia).
    cbn [close_page append_ops finished current seq fmap list_fmap compose app].
    by rewrite <- app_assoc.
Qed.

Lemma document_pages_run w image_paths :
  canvas_pages
    (run_all (page_step w image_paths)
       (seq 0 (total_pages (length image_paths))) (mkCanvas [] []))
  = document_pages w image_paths.
Proof.
  rewrite run_all_pages by done.
  unfold document_pages, paginate.
  destruct (total_pages (length image_paths)) as [| k]; [done |].
  cbn [seq fmap list_fmap finished current app].
  by rewrite <- list_fmap_compose.
Qed.

(** [create_a4_pdf] when the canvas can be created and saved. *)
Lemma create_a4_pdf_run w image_paths output_pdf s :
  canvas_ok w = true -> save_ok w = true ->
  exists c lg,
    create_a4_pdf w image_paths output_pdf s
    = (Ok true, mkState c (st_log s ++ lg) ((output_pdf, c) :: st_files s)) /\
    canvas_pages c = document_pages w image_paths.
Proof.
  intros Hc Hs.
  destruct (pages_loop_draws w image_paths
              (seq 0 (total_pages (length image_paths)))
              (mkState (mkCanvas [] [])
                 (st_log s ++ [(INFO, PlannedPages (total_pages (length image_paths)))])
                 (st_files s))) as [lg Hloop].
  eexists _, _. split; [| apply document_pages_run].
  unfold create_a4_pdf, try_except, new_canvas, save, with_canvas, logging,
    mbind, M_bind, mret, M_ret.
  rewrite Hc, Hs. cbn [st_canvas st_log st_files].
  rewrite Hloop. cbn [st_canvas st_log st_files].
  by rewrite <- !app_assoc.
Qed.

(** [create_a4_pdf] catches whatever is raised. *)
Lemma create_a4_pdf_returns w image_paths output_pdf s :
  exists b s', create_a4_pdf w image_paths output_pdf s = (Ok b, s').
Proof.
  unfold create_a4_pdf, try_except.
  match goal with
  | |- context [match ?body with _ => _ end] =>
      destruct body as [[b | e] s']
  end; [by eauto |].
  unfold logging, mbind, M_bind, mret, M_ret. simpl. by eauto.
Qed.

(** The grid of the script: A4, margin 40, inner margin 20. *)
Lemma grid_cells_disjoint_inside_a4 :
  0 < inner_margin /\
  0 < img_width a4_width margin inner_margin /\
  0 < img_height a4_height margin inner_margin /\
  grid_ok a4_width a4_height margin inner_margin.
Proof.
  assert (0 < inner_margin) as H1 by (vm_compute; reflexivity).
  assert (0 < img_width a4_width margin inner_margin) as H2
    by (vm_compute; reflexivity).
  assert (0 < img_height a4_height margin inner_margin) as H3
    by (vm_compute; reflexivity).
  split; [exact H1 |]. split; [exact H2 |]. split; [exact H3 |].
  exact (grid_cells_disjoint_inside a4_width a4_height margin inner_margin
           H1 H2 H3).
Defined.

(** C6, as stated, fails: on a 100 x 100 page with margin 10 the effective
    area is 80 x 80, yet with inner margin 100 the cells have the width -10
    and the height -40; the cell (0,0) is anchored at y = 130, above the
    page, and is no box within the effective area. *)
Lemma oversized_inner_margin_inverts_cells :
  0 < effective_width 100 10 /\
  0 < effective_height 100 10 /\
  box_w (computeCellBox 100 100 10 100 0 0) < 0 /\
  box_h (computeCellBox 100 100 10 100 0 0) < 0 /\
  100 < box_y (computeCellBox 100 100 10 100 0 0) /\
  ~ grid_ok 100 100 10 100.
Proof.
  split; [by vm_compute |]. split; [by vm_compute |].
  split; [by vm_compute |]. split; [by vm_compute |].
  split; [by vm_compute |].
  intros H. destruct (H 0%nat 0%nat) as [[Hw _] _]; [lia | lia |].
  vm_compute in Hw. by apply Hw.
Qed.

(** A negative inner margin makes neighbouring cells overlap: here the
    cells (0,0) and (0,1) share the strip 45 <= x <= 55. *)
Lemma negative_inner_margin_overlap :
  0 < effective_width 100 10 /\
  0 < effective_height 100 10 /\
  ~ grid_ok 100 100 10 (-10).
Proof.
  split; [by vm_compute |]. split; [by vm_compute |].
  intros H. destruct (H 0%nat 0%nat) as (_ & _ & Hap); [lia | lia |].
  destruct (Hap 0%nat 1%nat) as [Hx | [Hx | [Hx | Hx]]];
    [lia | lia | congruence | ..]; vm_compute in Hx; discriminate.
Qed.

(** Without a gutter the boxes of neighbouring cells share an edge. *)
Lemma zero_inner_margin_touch : ~ grid_ok 100 100 10 0.
Proof.
  intros H. destruct (H 0%nat 0%nat) as (_ & _ & Hap); [lia | lia |].
  destruct (Hap 0%nat 1%nat) as [Hx | [Hx | [Hx | Hx]]];
    [lia | lia | congruence | ..]; vm_compute in Hx; discriminate.
Qed.

(** * Pages of the document *)

Lemma paginate_lookup_inv {A} (l : list A) p page :
  paginate l !! p = Some page ->
  (p < total_pages (length l))%nat /\ page = page_images l p.
Proof.
  intros H. pose proof (lookup_lt_Some _ _ _ H) as Hp.
  rewrite length_paginate in Hp. split; [done |].
  rewrite paginate_lookup in H by done. congruence.
Qed.

Lemma paginate_page_length {A} (l : list A) p page :
  paginate l !! p = Some page -> (length page <= 6)%nat.
Proof.
  intros H. apply paginate_lookup_inv in H as [_ ->].
  rewrite length_page_images. lia.
Qed.

Lemma document_pages_lookup w image_paths p page :
  paginate image_paths !! p = Some page ->
  document_pages w image_paths !! p = Some (page_ops w page).
Proof.
  intros H. unfold document_pages.
  destruct (paginate image_paths) as [| pg pgs] eqn:E; [done |].
  by rewrite list_lookup_fmap, H.
Qed.

Lemma placed_false_cell_ops w row col img_path :
  placed w img_path = false -> cell_ops w row col img_path = [].
Proof.
  unfold placed, cell_ops. cbn [box_w box_h computeCellBox].
  destruct (file w img_path) as [| | width height [|]]; try done.
  destruct (computePlacement _ _ _ _); [| done].
  intros H. apply bool_decide_eq_false in H. by destruct H.
Qed.

Lemma drawn_images_app ops1 ops2 :
  drawn_images (ops1 ++ ops2) = drawn_images ops1 ++ drawn_images ops2.
Proof. unfold drawn_images. apply bind_app. Qed.

Lemma drawn_images_cell_ops w row col img_path :
  drawn_images (cell_ops w row col img_path)
  = if placed w img_path then [img_path] else [].
Proof.
  unfold placed, cell_ops. cbn [box_w box_h computeCellBox].
  destruct (file w img_path) as [| | width height [|]]; try done.
  destruct (computePlacement _ _ _ _) eqn:E.
  - by rewrite bool_decide_eq_true_2.
  - rewrite bool_decide_eq_false_2; [done |]. by intros [? ?].
Qed.

Lemma drawn_images_entries w (page : list string) k :
  drawn_images (concat (imap (fun j => entry_ops w (k + j)) page))
  = filter (fun p => placed w p = true) page.
Proof.
  revert k. induction page as [| x page IH]; intros k; [done |].
  rewrite imap_cons. cbn [concat].
  rewrite drawn_images_app. unfold entry_ops at 1.
  rewrite drawn_images_cell_ops, filter_cons.
  rewrite (imap_ext _ (fun j => entry_ops w (S k + j)) page)
    by (intros; simpl; f_equal; lia).
  rewrite IH.
  destruct (placed w x); by case_decide.
Qed.

Lemma drawn_images_page_ops w page :
  drawn_images (page_ops w page) = filter (fun p => placed w p = true) page.
Proof. apply (drawn_images_entries w page 0). Qed.

Lemma filter_concat {A} (P : A -> Prop) `{!forall x, Decision (P x)}
    (ls : list (list A)) :
  filter P (concat ls) = concat (filter P <$> ls).
Proof.
  induction ls as [| l ls IH]; [done |].
  cbn [concat fmap list_fmap]. by rewrite filter_app, IH.
Qed.

Lemma drawn_images_document w image_paths :
  concat (drawn_images <$> document_pages w image_paths)
  = filter (fun p => placed w p = true) image_paths.
Proof.
  rewrite <- (concat_paginate image_paths) at 2.
  unfold document_pages.
  destruct (paginate image_paths) as [| pg pgs]; [done |].
  rewrite filter_concat, <- list_fmap_compose.
  f_equal. apply list_fmap_ext. intros _ page _. apply drawn_images_page_ops.
Qed.

Lemma slot_cell_inj i j : slot_cell i = slot_cell j -> i = j.
Proof.
  intros H.
  pose proof (f_equal fst H) as Hd. pose proof (f_equal snd H) as Hm.
  unfold slot_cell in Hd, Hm. cbn [fst snd] in Hd, Hm.
  rewrite (Nat.div_mod_eq i 2), (Nat.div_mod_eq j 2). by rewrite Hd, Hm.
Qed.

Lemma slot_cell_in_grid i :
  (i < 6)%nat -> (fst (slot_cell i) < 3)%nat /\ (snd (slot_cell i) < 2)%nat.
Proof.
  intros Hi. unfold slot_cell. cbn [fst snd]. split.
  - apply Nat.Div0.div_lt_upper_bound. lia.
  - apply Nat.mod_upper_bound. lia.
Qed.

#[global] Instance slot_cell_Inj : Inj (=) (=) slot_cell.
Proof. intros i j. apply slot_cell_inj. Qed.

(** * The claims about [create_a4_pdf] *)

(** C10. When the canvas can be created and the document saved,
    [create_a4_pdf] returns True whatever happens to the single entries:
    failures of entries are caught in the loop and never reach the result. *)
Theorem create_a4_pdf_true_despite_item_failures
    w image_paths output_pdf s :
  canvas_ok w = true -> save_ok w = true ->
  exists s', create_a4_pdf w image_paths output_pdf s = (Ok true, s').
Proof.
  intros Hc Hs.
  destruct (create_a4_pdf_run w image_paths output_pdf s Hc Hs)
    as (c & lg & E & _).
  eauto.
Qed.

(** Every entry missing: nothing is placed, the result is still True. *)
Lemma create_a4_pdf_true_all_skipped :
  canvas_ok world_empty_folder = true /\
  save_ok world_empty_folder = true /\
  exists s',
    create_a4_pdf world_empty_folder ["a.png"; "b.png"]%string "out.pdf"
      initial_state = (Ok true, s').
Proof.
  split; [reflexivity |]. split; [reflexivity |].
  apply (create_a4_pdf_true_despite_item_failures world_empty_folder);
    reflexivity.
Defined.

(** C7. The entry at position i of its page is drawn in the cell
    (row = i // 2, col = i % 2), with i below 6; 13 entries give pages of
    sizes 6, 6 and 1, and the 13th entry is alone on the third page, in
    cell (0, 0). *)
Theorem cell_of_position w image_paths output_pdf s :
  canvas_ok w = true -> save_ok w = true ->
  exists c s',
    create_a4_pdf w image_paths output_pdf s = (Ok true, s') /\
    st_files s' = (output_pdf, c) :: st_files s /\
    (forall p page,
       paginate image_paths !! p = Some page ->
       (length page <= 6)%nat /\
       canvas_pages c !! p
       = Some (concat (imap (fun i img_path =>
                               cell_ops w (i / 2) (i mod 2) img_path) page))) /\
    (length image_paths = 13%nat ->
     length <$> paginate image_paths = [6; 6; 1]%nat /\
     forall x, image_paths !! 12%nat = Some x ->
       paginate image_paths !! 2%nat = Some [x] /\
       canvas_pages c !! 2%nat = Some (cell_ops w 0 0 x)).
Proof.
  intros Hc Hs.
  destruct (create_a4_pdf_run w image_paths output_pdf s Hc Hs)
    as (c & lg & E & Hpages).
  exists c. eexists. split; [exact E |]. split; [done |].
  assert (forall p page,
            paginate image_paths !! p = Some page ->
            canvas_pages c !! p = Some (page_ops w page)) as Hlook.
  { intros p page Hp. rewrite Hpages. by apply document_pages_lookup. }
  split.
  - intros p page Hp. split; [by eapply paginate_page_length |].
    by apply Hlook.
  - intros Hlen.
    assert (paginate image_paths
            = [page_images image_paths 0; page_images image_paths 1;
               page_images image_paths 2]) as Epg.
    { unfold paginate. by rewrite Hlen. }
    split.
    { rewrite Epg. cbn [fmap list_fmap].
      rewrite !length_page_images, Hlen. done. }
    intros x Hx.
    assert (page_images image_paths 2 = [x]) as Elast.
    { assert (length (page_images image_paths 2) = 1%nat) as L
        by (by rewrite length_page_images, Hlen).
      assert (page_images image_paths 2 !! 0%nat = Some x) as L0.
      { rewrite page_images_lookup by lia. exact Hx. }
      destruct (page_images image_paths 2) as [| y [| z r]]; try done.
      cbn in L0. congruence. }
    assert (paginate image_paths !! 2%nat = Some [x]) as Hp2.
    { by rewrite Epg, Elast. }
    split; [done |].
    rewrite (Hlook _ _ Hp2). unfold page_ops, entry_ops. cbn.
    by rewrite app_nil_r.
Qed.

Lemma cell_of_position_thirteen :
  canvas_ok world_missing_a = true /\
  save_ok world_missing_a = true /\
  exists c s',
    create_a4_pdf world_missing_a thirteen_images "out.pdf" initial_state
    = (Ok true, s') /\
    st_files s' = ("out.pdf"%string, c) :: st_files initial_state /\
    (forall p page,
       paginate thirteen_images !! p = Some page ->
       (length page <= 6)%nat /\
       canvas_pages c !! p
       = Some (concat (imap (fun i img_path =>
                 cell_ops world_missing_a (i / 2) (i mod 2) img_path) page))) /\
    (length thirteen_images = 13%nat ->
     length <$> paginate thirteen_images = [6; 6; 1]%nat /\
     forall x, thirteen_images !! 12%nat = Some x ->
       paginate thirteen_images !! 2%nat = Some [x] /\
       canvas_pages c !! 2%nat = Some (cell_ops world_missing_a 0 0 x)).
Proof.
  split; [reflexivity |]. split; [reflexivity |].
  apply (cell_of_position world_missing_a); reflexivity.
Defined.

(** C8. Every page places at most 6 entries; the entries are drawn in the
    order of the input list; on a page the entry at position i gets the
    cell of slot i, the positions are below 6, and distinct positions
    below 6 have distinct cells, so no two entries of a page share one. *)
Theorem page_invariant w image_paths output_pdf s :
  canvas_ok w = true -> save_ok w = true ->
  exists c s',
    create_a4_pdf w image_paths output_pdf s = (Ok true, s') /\
    st_files s' = (output_pdf, c) :: st_files s /\
    Forall (fun ops => (length (drawn_images ops) <= 6)%nat) (canvas_pages c) /\
    concat (drawn_images <$> canvas_pages c)
    = filter (fun p => placed w p = true) image_paths /\
    (forall p page,
       paginate image_paths !! p = Some page ->
       (length page <= 6)%nat /\
       NoDup (slot_cell <$> seq 0 (length page)) /\
       canvas_pages c !! p
       = Some (concat (imap (fun i img_path =>
                   cell_ops w (fst (slot_cell i)) (snd (slot_cell i)) img_path)
                 page))) /\
    (forall i j, (i < 6)%nat -> (j < 6)%nat -> i <> j ->
                 slot_cell i <> slot_cell j).
Proof.
  intros Hc Hs.
  destruct (create_a4_pdf_run w image_paths output_pdf s Hc Hs)
    as (c & lg & E & Hpages).
  exists c. eexists. split; [exact E |]. split; [done |].
  rewrite Hpages. split; [| split; [| split]].
  - apply Forall_forall. intros ops Hops. unfold document_pages in Hops.
    destruct (paginate image_paths) as [| pg pgs] eqn:Epg.
    + apply list_elem_of_singleton in Hops as ->. cbn. lia.
    + apply list_elem_of_fmap in Hops as (page & -> & Hin).
      apply list_elem_of_lookup in Hin as [p Hp].
      rewrite <- Epg in Hp. apply paginate_page_length in Hp.
      rewrite drawn_images_page_ops.
      pose proof (length_filter (fun p => placed w p = true) page). lia.
  - apply drawn_images_document.
  - intros p page Hp. split; [by eapply paginate_page_length |].
    split; [apply (NoDup_fmap_2 _), NoDup_seq |].
    by apply document_pages_lookup.
  - intros i j _ _ Hne Heq. by apply Hne, slot_cell_inj.
Qed.

Lemma page_invariant_two_entries :
  canvas_ok world_missing_a = true /\
  save_ok world_missing_a = true /\
  exists c s',
    create_a4_pdf world_missing_a ["in/a.png"; "in/b.png"]%string "out.pdf"
      initial_state = (Ok true, s') /\
    st_files s' = ("out.pdf"%string, c) :: st_files initial_state /\
    Forall (fun ops => (length (drawn_images ops) <= 6)%nat) (canvas_pages c) /\
    concat (drawn_images <$> canvas_pages c)
    = filter (fun p => placed world_missing_a p = true)
        ["in/a.png"; "in/b.png"]%string /\
    (forall p page,
       paginate ["in/a.png"; "in/b.png"]%string !! p = Some page ->
       (length page <= 6)%nat /\
       NoDup (slot_cell <$> seq 0 (length page)) /\
       canvas_pages c !! p
       = Some (concat (imap (fun i img_path =>
                   cell_ops world_missing_a (fst (slot_cell i))
                     (snd (slot_cell i)) img_path)
                 page))) /\
    (forall i j, (i < 6)%nat -> (j < 6)%nat -> i <> j ->
                 slot_cell i <> slot_cell j).
Proof.
  split; [reflexivity |]. split; [reflexivity |].
  apply (page_invariant world_missing_a); reflexivity.
Defined.

(** C1 (amended). A skipped entry leaves its cell empty: the entries before
    it and after it on the page keep the cells of their positions in the
    page's slice, the skipped position included in the count. *)
Theorem skipped_entry_keeps_positions w image_paths output_pdf s :
  canvas_ok w = true -> save_ok w = true ->
  exists c s',
    create_a4_pdf w image_paths output_pdf s = (Ok true, s') /\
    st_files s' = (output_pdf, c) :: st_files s /\
    forall p pre x post,
      paginate image_paths !! p = Some (pre ++ x :: post) ->
      placed w x = false ->
      canvas_pages c !! p
      = Some (concat (imap (entry_ops w) pre)
              ++ concat (imap (fun j => entry_ops w (length pre + 1 + j)) post)).
Proof.
  intros Hc Hs.
  destruct (create_a4_pdf_run w image_paths output_pdf s Hc Hs)
    as (c & lg & E & Hpages).
  exists c. eexists. split; [exact E |]. split; [done |].
  intros p pre x post Hp Hx.
  rewrite Hpages, (document_pages_lookup _ _ _ _ Hp).
  unfold page_ops. rewrite imap_app, concat_app, imap_cons. cbn [concat].
  unfold entry_ops at 2. rewrite placed_false_cell_ops by done.
  cbn [app]. do 3 f_equal. apply imap_ext. intros j y _. cbn.
  f_equal. lia.
Qed.

Lemma skipped_entry_keeps_positions_missing_a :
  canvas_ok world_missing_a = true /\
  save_ok world_missing_a = true /\
  exists c s',
    create_a4_pdf world_missing_a ["in/a.png"; "in/b.png"]%string "out.pdf"
      initial_state = (Ok true, s') /\
    st_files s' = ("out.pdf"%string, c) :: st_files initial_state /\
    forall p pre x post,
      paginate ["in/a.png"; "in/b.png"]%string !! p = Some (pre ++ x :: post) ->
      placed world_missing_a x = false ->
      canvas_pages c !! p
      = Some (concat (imap (entry_ops world_missing_a) pre)
              ++ concat (imap (fun j =>
                   entry_ops world_missing_a (length pre + 1 + j)) post)).
Proof.
  split; [reflexivity |]. split; [reflexivity |].
  apply (skipped_entry_keeps_positions world_missing_a); reflexivity.
Defined.

(** C1, as stated, fails: with [in/a.png] missing, [in/b.png] is the first
    image drawn on its page, but it is drawn in the cell of its position 1,
    row 0 and column 1, not in the cell of slot 0. *)
Lemma skipped_entry_not_compacted :
  exists c s',
    create_a4_pdf world_missing_a ["in/a.png"; "in/b.png"]%string "out.pdf"
      initial_state = (Ok true, s') /\
    st_files s' = [("out.pdf"%string, c)] /\
    placed world_missing_a "in/a.png" = false /\
    placed world_missing_a "in/b.png" = true /\
    (exists b, image_boxes (current c) = [b] /\
       box_inside b (computeCellBox a4_width a4_height margin inner_margin 0 1)) /\
    ~ compacted c.
Proof.
  eexists _, _. split; [vm_compute; reflexivity |].
  split; [reflexivity |]. split; [by vm_compute |]. split; [by vm_compute |].
  split.
  - eexists. split; [vm_compute; reflexivity |].
    unfold box_inside; repeat split; by vm_compute.
  - intros H.
    specialize (H 0%nat _ 0%nat _ eq_refl eq_refl).
    destruct H as (_ & H & _). vm_compute in H. by apply H.
Qed.

(** * [batch_process_folder] *)

Lemma collect_images_run w input_folder image_extensions image_files s :
  collect_images w input_folder image_extensions image_files s
  = (Ok (image_files
         ++ concat ((fun ext => glob w (path_join w input_folder ext))
                    <$> image_extensions)),
     mkState (st_canvas s)
       (st_log s
        ++ ((fun ext =>
               (DEBUG,
                FilesFound (length (glob w (path_join w input_folder ext))) ext))
            <$> image_extensions))
       (st_files s)).
Proof.
  revert image_files s.
  induction image_extensions as [| ext rest IH]; intros image_files s.
  - destruct s. cbn. by rewrite !app_nil_r.
  - cbn [collect_images]. unfold mbind, M_bind, logging.
    rewrite IH. cbn [st_canvas st_log st_files fmap list_fmap concat].
    by rewrite <- !app_assoc.
Qed.

Lemma no_matches_concat w input_folder image_extensions :
  (forall ext, ext ∈ image_extensions ->
     glob w (path_join w input_folder ext) = []) ->
  concat ((fun ext => glob w (path_join w input_folder ext))
          <$> image_extensions) = [].
Proof.
  induction image_extensions as [| ext rest IH]; intros H; [done |].
  cbn [fmap list_fmap concat].
  rewrite H by apply list_elem_of_here. cbn [app].
  apply IH. intros e He. apply H. by apply list_elem_of_further.
Qed.

(** C9. With no matching image in the input directory,
    [batch_process_folder] logs the warning, writes no document and
    returns False. *)
Theorem batch_without_images w input_folder output_folder image_extensions s :
  isdir w input_folder = true ->
  makedirs_ok w (default (path_join w input_folder "pdf_output") output_folder)
  = true ->
  (forall ext, ext ∈ image_extensions ->
     glob w (path_join w input_folder ext) = []) ->
  exists s',
    batch_process_folder w input_folder output_folder image_extensions s
    = (Ok false, s') /\
    st_files s' = st_files s /\
    last (st_log s') = Some (WARNING, NoImages).
Proof.
  intros Hdir Hmk Hglob.
  unfold batch_process_folder, try_except, makedirs, mbind, M_bind.
  rewrite Hdir, Hmk. cbn [negb mret M_ret logging st_canvas st_log st_files].
  rewrite collect_images_run, (no_matches_concat _ _ _ Hglob).
  cbn [app sort_names length Nat.eqb st_canvas st_log st_files].
  change (sort_names []) with (@nil string). cbn [length Nat.eqb].
  eexists. split; [reflexivity |]. cbn [st_files st_log]. split; [done |].
  by rewrite last_snoc.
Qed.

Lemma batch_without_images_empty_folder :
  isdir world_empty_folder "in" = true /\
  makedirs_ok world_empty_folder
    (default (path_join world_empty_folder "in" "pdf_output") None) = true /\
  (forall ext, ext ∈ default_extensions ->
     glob world_empty_folder (path_join world_empty_folder "in" ext) = []) /\
  exists s',
    batch_process_folder world_empty_folder "in" None default_extensions
      initial_state = (Ok false, s') /\
    st_files s' = st_files initial_state /\
    last (st_log s') = Some (WARNING, NoImages).
Proof.
  assert (forall ext, ext ∈ default_extensions ->
            glob world_empty_folder (path_join world_empty_folder "in" ext) = [])
    as Hglob by (intros ext _; reflexivity).
  split; [reflexivity |]. split; [reflexivity |]. split; [exact Hglob |].
  exact (batch_without_images world_empty_folder "in" None default_extensions
           initial_state eq_refl eq_refl Hglob).
Defined.

(** C2 fails on the code.  The folder holds two decodable images and the
    document cannot be written: [create_a4_pdf] logs the error and returns
    False, but [batch_process_folder] drops that result, logs the end of the
    batch and returns True, with no document written. *)
Theorem save_failure_not_reported_by_batch :
  let pdf_path := "in/pdf_output/images_20240101_120000.pdf"%string in
  let run :=
    batch_process_folder world_save_fails "in" None default_extensions
      initial_state in
  fst (create_a4_pdf world_save_fails ["in/a.png"; "in/b.png"]%string pdf_path
         initial_state) = Ok false /\
  fst run = Ok true /\
  st_files (snd run) = [] /\
  In (ERROR, PdfFailed pdf_path SaveError) (st_log (snd run)) /\
  last (st_log (snd run)) = Some (INFO, BatchDone).
Proof.
  cbv zeta.
  split; [by vm_compute |]. split; [by vm_compute |].
  split; [by vm_compute |]. split; [| by vm_compute].
  vm_compute. tauto.
Qed.

(** Whenever a document is attempted, the batch result is True: the result
    of [create_a4_pdf] is not looked at. *)
Lemma batch_ignores_pdf_result w input_folder output_folder image_extensions s :
  isdir w input_folder = true ->
  makedirs_ok w (default (path_join w input_folder "pdf_output") output_folder)
  = true ->
  sort_names (concat ((fun ext => glob w (path_join w input_folder ext))
                        <$> image_extensions)) <> [] ->
  exists s',
    batch_process_folder w input_folder output_folder image_extensions s
    = (Ok true, s').
Proof.
  intros Hdir Hmk Hne.
  unfold batch_process_folder, try_except, makedirs, mbind, M_bind.
  rewrite Hdir, Hmk. cbn [negb mret M_ret logging st_canvas st_log st_files].
  rewrite collect_images_run. cbn [app st_canvas st_log st_files].
  destruct (sort_names _) as [| f fs] eqn:Esort; [done |].
  cbn [length Nat.eqb].
  match goal with
  | |- context [create_a4_pdf ?w' ?l ?o ?s0] =>
      destruct (create_a4_pdf_returns w' l o s0) as (b & s1 & ->)
  end.
  eauto.
Qed.

(** * Outcomes of [create_a4_pdf] *)

Lemma create_a4_pdf_no_canvas w image_paths output_pdf s :
  canvas_ok w = false ->
  create_a4_pdf w image_paths output_pdf s
  = (Ok false,
     mkState (st_canvas s)
       (st_log s ++ [(ERROR, PdfFailed output_pdf CanvasError)]) (st_files s)).
Proof.
  intros Hc. unfold create_a4_pdf, try_except, new_canvas, mbind, M_bind.
  rewrite Hc. by destruct s.
Qed.

Lemma create_a4_pdf_no_save w image_paths output_pdf s :
  canvas_ok w = true -> save_ok w = false ->
  exists c lg,
    create_a4_pdf w image_paths output_pdf s
    = (Ok false,
       mkState c (st_log s ++ lg ++ [(ERROR, PdfFailed output_pdf SaveError)])
         (st_files s)) /\
    canvas_pages c = document_pages w image_paths.
Proof.
  intros Hc Hs.
  destruct (pages_loop_draws w image_paths
              (seq 0 (total_pages (length image_paths)))
              (mkState (mkCanvas [] [])
                 (st_log s ++ [(INFO, PlannedPages (total_pages (length image_paths)))])
                 (st_files s))) as [lg Hloop].
  eexists _, ([(INFO, PlannedPages (total_pages (length image_paths)))] ++ lg).
  split; [| apply document_pages_run].
  unfold create_a4_pdf, try_except, new_canvas, save, with_canvas, logging,
    mbind, M_bind, mret, M_ret.
  rewrite Hc, Hs. cbn [st_canvas st_log st_files].
  rewrite Hloop. cbn [st_canvas st_log st_files].
  rewrite <- !app_assoc. reflexivity.
Qed.

(** [create_a4_pdf] never raises, and it returns True exactly when the
    canvas could be created and [c.save()] returned; the save is then the
    one it adds, for [output_pdf] and the canvas it has drawn. *)
Theorem create_a4_pdf_result w image_paths output_pdf s :
  exists s',
    create_a4_pdf w image_paths output_pdf s
    = (Ok (canvas_ok w && save_ok w), s') /\
    (canvas_ok w && save_ok w = true ->
     st_files s' = (output_pdf, st_canvas s') :: st_files s /\
     canvas_pages (st_canvas s') = document_pages w image_paths).
Proof.
  destruct (canvas_ok w) eqn:Hc; [destruct (save_ok w) eqn:Hs |].
  - destruct (create_a4_pdf_run w image_paths output_pdf s Hc Hs)
      as (c & lg & -> & Hpages). eauto.
  - destruct (create_a4_pdf_no_save w image_paths output_pdf s Hc Hs)
      as (c & lg & -> & _). by eexists.
  - rewrite create_a4_pdf_no_canvas by done. by eexists.
Qed.

(** A failed [create_a4_pdf] says why: its last log record is the error,
    with the exception that stopped it. *)
Theorem create_a4_pdf_failure_logged w image_paths output_pdf s s' :
  create_a4_pdf w image_paths output_pdf s = (Ok false, s') ->
  (canvas_ok w = false /\
   last (st_log s') = Some (ERROR, PdfFailed output_pdf CanvasError)) \/
  (canvas_ok w = true /\ save_ok w = false /\
   last (st_log s') = Some (ERROR, PdfFailed output_pdf SaveError)).
Proof.
  intros E.
  destruct (canvas_ok w) eqn:Hc; [destruct (save_ok w) eqn:Hs |].
  - destruct (create_a4_pdf_run w image_paths output_pdf s Hc Hs)
      as (c & lg & E' & _). congruence.
  - destruct (create_a4_pdf_no_save w image_paths output_pdf s Hc Hs)
      as (c & lg & E' & _).
    rewrite E' in E. injection E as <-. right.
    cbn [st_log]. by rewrite !app_assoc, last_snoc.
  - rewrite create_a4_pdf_no_canvas in E by done.
    injection E as <-. left. cbn [st_log]. by rewrite last_snoc.
Qed.

Lemma create_a4_pdf_failure_logged_save_fails :
  exists s',
    create_a4_pdf world_save_fails ["in/a.png"]%string "out.pdf" initial_state
    = (Ok false, s') /\
    ((canvas_ok world_save_fails = false /\
      last (st_log s') = Some (ERROR, PdfFailed "out.pdf" CanvasError)) \/
     (canvas_ok world_save_fails = true /\ save_ok world_save_fails = false /\
      last (st_log s') = Some (ERROR, PdfFailed "out.pdf" SaveError))).
Proof.
  eexists. split; [vm_compute; reflexivity |].
  eapply (create_a4_pdf_failure_logged world_save_fails ["in/a.png"]%string
            "out.pdf" initial_state).
  vm_compute. reflexivity.
Defined.

(** * File names in order *)

Lemma name_le_alt (a b : string) :
  name_le a b <-> a = b \/ String_as_OT.lt a b.
Proof.
  unfold name_le, String.leb.
  change (String.compare a b) with (String_as_OT.compare a b).
  destruct (String_as_OT.compare_spec a b) as [H | H | H].
  - split; [by left | done].
  - split; [by right | done].
  - split; [done |]. intros [-> | H'].
    + by apply (StrictOrder_Irreflexive b) in H.
    + pose proof (StrictOrder_Transitive a b a H' H) as Haa.
      by apply (StrictOrder_Irreflexive a) in Haa.
Qed.

#[global] Instance name_le_trans : Transitive name_le.
Proof.
  intros a b c. rewrite !name_le_alt. intros [-> | Hab] [-> | Hbc]; auto.
  right. by apply (StrictOrder_Transitive a b c).
Qed.

#[global] Instance name_le_total : Total name_le.
Proof. intros a b. apply String.leb_total. Qed.

Lemma StronglySorted_filter {A} (R : relation A) (P : A -> Prop)
    `{!forall x, Decision (P x)} (l : list A) :
  StronglySorted R l -> StronglySorted R (filter P l).
Proof.
  induction 1 as [| x l Hl IH Hx]; [constructor |].
  rewrite filter_cons. case_decide; [| done].
  constructor; [done |].
  apply Forall_forall. intros y Hy. apply list_elem_of_filter in Hy as [_ Hy].
  by apply (proj1 (Forall_forall _ _) Hx).
Qed.

Lemma sort_names_sorted (l : list string) : StronglySorted name_le (sort_names l).
Proof. apply StronglySorted_merge_sort; apply _. Qed.

Lemma sort_names_perm (l : list string) : sort_names l ≡ₚ l.
Proof. apply merge_sort_Permutation. Qed.

(** * Outcomes of [batch_process_folder] *)

Section Batch.
Variables (w : World) (input_folder : string) (output_folder : option string).
Variable image_extensions : list string.
Variable s : State.

Lemma batch_not_a_directory :
  isdir w input_folder = false ->
  batch_process_folder w input_folder output_folder image_extensions s
  = (Ok false,
     mkState (st_canvas s)
       (st_log s ++ [(ERROR, BatchFailed NotADirectoryError)]) (st_files s)).
Proof.
  intros Hdir. unfold batch_process_folder, try_except, mbind, M_bind.
  rewrite Hdir. by destruct s.
Qed.

Lemma batch_no_output_folder :
  isdir w input_folder = true ->
  makedirs_ok w (default (path_join w input_folder "pdf_output") output_folder)
  = false ->
  batch_process_folder w input_folder output_folder image_extensions s
  = (Ok false,
     mkState (st_canvas s) (st_log s ++ [(ERROR, BatchFailed OSError)])
       (st_files s)).
Proof.
  intros Hdir Hmk.
  unfold batch_process_folder, try_except, makedirs, mbind, M_bind.
  rewrite Hdir, Hmk. by destruct s.
Qed.

Lemma batch_no_images :
  isdir w input_folder = true ->
  makedirs_ok w (default (path_join w input_folder "pdf_output") output_folder)
  = true ->
  sort_names (found_images w input_folder image_extensions) = [] ->
  exists lg,
    batch_process_folder w input_folder output_folder image_extensions s
    = (Ok false,
       mkState (st_canvas s) (st_log s ++ lg ++ [(WARNING, NoImages)])
         (st_files s)).
Proof.
  intros Hdir Hmk Hnil.
  unfold batch_process_folder, try_except, makedirs, mbind, M_bind.
  rewrite Hdir, Hmk. cbn [negb mret M_ret logging st_canvas st_log st_files].
  rewrite collect_images_run. cbn [app st_canvas st_log st_files].
  fold (found_images w input_folder image_extensions). rewrite Hnil.
  cbn [length Nat.eqb].
  exists ((INFO, OutputFolder
                   (default (path_join w input_folder "pdf_output")
                      output_folder))
          :: ((fun ext =>
                 (DEBUG,
                  FilesFound (length (glob w (path_join w input_folder ext)))
                    ext)) <$> image_extensions)
          ++ [(INFO, ImagesFound input_folder 0)]).
  unfold mret, M_ret. cbn [st_canvas st_log st_files app].
  rewrite <- !app_assoc. reflexivity.
Qed.

Lemma batch_attempt :
  isdir w input_folder = true ->
  makedirs_ok w (default (path_join w input_folder "pdf_output") output_folder)
  = true ->
  sort_names (found_images w input_folder image_extensions) <> [] ->
  exists s0 b s1,
    st_files s0 = st_files s /\
    create_a4_pdf w (sort_names (found_images w input_folder image_extensions))
      (pdf_path w input_folder output_folder) s0 = (Ok b, s1) /\
    batch_process_folder w input_folder output_folder image_extensions s
    = (Ok true,
       mkState (st_canvas s1) (st_log s1 ++ [(INFO, BatchDone)]) (st_files s1)).
Proof.
  intros Hdir Hmk Hne.
  unfold batch_process_folder, try_except, makedirs, mbind, M_bind.
  rewrite Hdir, Hmk. cbn [negb mret M_ret logging st_canvas st_log st_files].
  rewrite collect_images_run. cbn [app st_canvas st_log st_files].
  fold (found_images w input_folder image_extensions).
  fold (pdf_path w input_folder output_folder).
  destruct (sort_names _) as [| f fs] eqn:Esort; [done |].
  cbn [length Nat.eqb].
  match goal with
  | |- context [create_a4_pdf ?w' ?l ?o ?s0] =>
      destruct (create_a4_pdf_returns w' l o s0) as (b & s1 & E);
      exists s0, b, s1
  end.
  split; [done |]. split; [exact E |]. by rewrite E.
Qed.

(** [batch_process_folder] never raises, and its result depends only on the
    input folder, the output folder and whether an image was found: it is
    True exactly when the input is a directory, the output folder could be
    made and at least one file matched. *)
Theorem batch_process_folder_result :
  fst (batch_process_folder w input_folder output_folder image_extensions s)
  = Ok (isdir w input_folder
        && makedirs_ok w
             (default (path_join w input_folder "pdf_output") output_folder)
        && negb (length (sort_names
                           (found_images w input_folder image_extensions))
                 =? 0)%nat).
Proof.
  destruct (isdir w input_folder) eqn:Hdir;
    [| by rewrite batch_not_a_directory].
  destruct (makedirs_ok w _) eqn:Hmk;
    [| by rewrite batch_no_output_folder].
  destruct (sort_names _) as [| f fs] eqn:Esort.
  - destruct (batch_no_images Hdir Hmk Esort) as [lg ->]. done.
  - assert (sort_names (found_images w input_folder image_extensions) <> [])
      as Hne by (by rewrite Esort).
    destruct (batch_attempt Hdir Hmk Hne) as (s0 & b & s1 & _ & _ & ->). done.
Qed.

(** A batch that returns False has written no document, and the last record
    of its log tells why. *)
Theorem batch_false_no_document s' :
  batch_process_folder w input_folder output_folder image_extensions s
  = (Ok false, s') ->
  st_files s' = st_files s /\
  (last (st_log s') = Some (ERROR, BatchFailed NotADirectoryError) \/
   last (st_log s') = Some (ERROR, BatchFailed OSError) \/
   last (st_log s') = Some (WARNING, NoImages)).
Proof.
  intros E.
  destruct (isdir w input_folder) eqn:Hdir.
  2: { rewrite batch_not_a_directory in E by done. injection E as <-.
       cbn [st_files st_log]. rewrite last_snoc. auto. }
  destruct (makedirs_ok w
              (default (path_join w input_folder "pdf_output") output_folder))
    eqn:Hmk.
  2: { rewrite batch_no_output_folder in E by done. injection E as <-.
       cbn [st_files st_log]. rewrite last_snoc. auto. }
  destruct (sort_names (found_images w input_folder image_extensions))
    as [| f fs] eqn:Esort.
  - destruct (batch_no_images Hdir Hmk Esort) as [lg E'].
    rewrite E' in E. injection E as <-. cbn [st_files st_log].
    rewrite !app_assoc, last_snoc. auto.
  - assert (sort_names (found_images w input_folder image_extensions) <> [])
      as Hne by (by rewrite Esort).
    destruct (batch_attempt Hdir Hmk Hne) as (s0 & b & s1 & _ & _ & E').
    congruence.
Qed.

(** When everything works, the batch writes one document, to
    [output_folder/images_<timestamp>.pdf] (the output folder defaulting to
    [input_folder/pdf_output]).  Its pages lay out the found files sorted by
    name: the images drawn are, in ascending order of their paths, exactly
    the found files that can be placed. *)
Theorem batch_writes_sorted_document :
  isdir w input_folder = true ->
  makedirs_ok w (default (path_join w input_folder "pdf_output") output_folder)
  = true ->
  found_images w input_folder image_extensions <> [] ->
  canvas_ok w = true -> save_ok w = true ->
  exists c s',
    batch_process_folder w input_folder output_folder image_extensions s
    = (Ok true, s') /\
    st_files s' = (pdf_path w input_folder output_folder, c) :: st_files s /\
    canvas_pages c
    = document_pages w
        (sort_names (found_images w input_folder image_extensions)) /\
    StronglySorted name_le (concat (drawn_images <$> canvas_pages c)) /\
    concat (drawn_images <$> canvas_pages c)
    ≡ₚ filter (fun p => placed w p = true)
         (found_images w input_folder image_extensions) /\
    last (st_log s') = Some (INFO, BatchDone).
Proof.
  intros Hdir Hmk Hfound Hc Hs.
  assert (sort_names (found_images w input_folder image_extensions) <> [])
    as Hne.
  { intros Hnil. apply Hfound, Permutation_nil_r.
    rewrite <- Hnil. symmetry. apply sort_names_perm. }
  destruct (batch_attempt Hdir Hmk Hne) as (s0 & b & s1 & Hf & E & ->).
  destruct (create_a4_pdf_run w
              (sort_names (found_images w input_folder image_extensions))
              (pdf_path w input_folder output_folder) s0 Hc Hs)
    as (c & lg & E' & Hpages).
  rewrite E' in E. injection E as <- <-.
  exists c. eexists. split; [reflexivity |]. cbn [st_files st_log].
  rewrite Hf, Hpages, drawn_images_document.
  split; [done |]. split; [done |].
  split; [apply StronglySorted_filter, sort_names_sorted |].
  split; [by rewrite sort_names_perm |]. by rewrite last_snoc.
Qed.
End Batch.

(** * Shape of the pages *)

(** Every page but the last is full, and no page is empty. *)
Theorem pages_full_but_last {A} (l : list A) p page :
  paginate l !! p = Some page ->
  (1 <= length page <= 6)%nat /\
  ((S p < length (paginate l))%nat -> length page = 6%nat).
Proof.
  intros H. apply paginate_lookup_inv in H as [Hp ->].
  rewrite length_paginate, length_page_images.
  pose proof (total_pages_bounds (length l)). lia.
Qed.

Lemma pages_full_but_last_thirteen :
  paginate thirteen_images !! 2%nat = Some ["in/13.png"%string] /\
  (1 <= length ["in/13.png"%string] <= 6)%nat /\
  ((3 < length (paginate thirteen_images))%nat ->
   length ["in/13.png"%string] = 6%nat).
Proof.
  split; [reflexivity |].
  apply (pages_full_but_last thirteen_images 2). reflexivity.
Defined.

(** [showPage] is called once after every page but the last, never after
    the last one: when [c.save()] is called the canvas has ceil(N/6) - 1
    closed pages (none for an empty list), which hold the drawings of the
    first slices in order, and the drawings of the last slice are on the
    page still open. *)
Theorem show_page_between_pages w image_paths output_pdf s :
  canvas_ok w = true -> save_ok w = true ->
  exists c s',
    create_a4_pdf w image_paths output_pdf s = (Ok true, s') /\
    st_files s' = (output_pdf, c) :: st_files s /\
    length (finished c) = (total_pages (length image_paths) - 1)%nat /\
    finished c
    = (fun page_num => page_ops w (page_images image_paths page_num))
      <$> seq 0 (total_pages (length image_paths) - 1) /\
    current c
    = page_ops w (page_images image_paths
                    (total_pages (length image_paths) - 1)).
Proof.
  intros Hc Hs.
  destruct (create_a4_pdf_run w image_paths output_pdf s Hc Hs)
    as (c & lg & E & Hpages).
  exists c. eexists. split; [exact E |]. split; [done |].
  assert (finished c
          = (fun page_num => page_ops w (page_images image_paths page_num))
            <$> seq 0 (total_pages (length image_paths) - 1) /\
          current c
          = page_ops w (page_images image_paths
                          (total_pages (length image_paths) - 1)))
    as [Hfin Hcur].
  { pose proof (total_pages_bounds (length image_paths)) as B.
    destruct (total_pages (length image_paths)) as [| k] eqn:ET.
    - assert (image_paths = []) as -> by (apply nil_length_inv; lia).
      apply (app_inj_tail _ []) in Hpages as [-> ->]. done.
    - assert (document_pages w image_paths
              = (fun page_num => page_ops w (page_images image_paths page_num))
                <$> seq 0 (S k)) as Edoc.
      { unfold document_pages, paginate. rewrite ET.
        cbn [seq fmap list_fmap]. f_equal. by rewrite <- list_fmap_compose. }
      rewrite Edoc, seq_S, fmap_app in Hpages. cbn [fmap list_fmap] in Hpages.
      apply app_inj_tail in Hpages as [-> ->].
      by replace (S k - 1)%nat with k by lia. }
  split; [| by split].
  by rewrite Hfin, length_fmap, length_seq.
Qed.

Lemma show_page_between_pages_thirteen :
  canvas_ok world_missing_a = true /\
  save_ok world_missing_a = true /\
  exists c s',
    create_a4_pdf world_missing_a thirteen_images "out.pdf" initial_state
    = (Ok true, s') /\
    st_files s' = ("out.pdf"%string, c) :: st_files initial_state /\
    length (finished c) = (total_pages (length thirteen_images) - 1)%nat /\
    finished c
    = (fun page_num =>
         page_ops world_missing_a (page_images thirteen_images page_num))
      <$> seq 0 (total_pages (length thirteen_images) - 1) /\
    current c
    = page_ops world_missing_a
        (page_images thirteen_images
           (total_pages (length thirteen_images) - 1)).
Proof.
  split; [reflexivity |]. split; [reflexivity |].
  apply (show_page_between_pages world_missing_a); reflexivity.
Defined.

(** * Captions *)

Lemma captions_app ops1 ops2 :
  captions (ops1 ++ ops2) = captions ops1 ++ captions ops2.
Proof. unfold captions. apply bind_app. Qed.

Lemma captions_cell_ops w row col img_path :
  captions (cell_ops w row col img_path)
  = basename w <$> drawn_images (cell_ops w row col img_path).
Proof.
  unfold cell_ops. cbn [box_w box_h computeCellBox].
  destruct (file w img_path) as [| | width height [|]]; try done.
  by destruct (computePlacement _ _ _ _).
Qed.

Lemma captions_entries w (page : list string) k :
  captions (concat (imap (fun j => entry_ops w (k + j)) page))
  = basename w
    <$> drawn_images (concat (imap (fun j => entry_ops w (k + j)) page)).
Proof.
  revert k. induction page as [| x page IH]; intros k; [done |].
  rewrite imap_cons. cbn [concat].
  rewrite captions_app, drawn_images_app, fmap_app.
  rewrite (imap_ext _ (fun j => entry_ops w (S k + j)) page)
    by (intros; simpl; f_equal; lia).
  rewrite IH. f_equal. apply captions_cell_ops.
Qed.

(** Every image drawn gets exactly one caption, its base name; the captions
    of a page come in the order of its images. *)
Theorem captions_are_base_names w image_paths output_pdf s :
  canvas_ok w = true -> save_ok w = true ->
  exists c s',
    create_a4_pdf w image_paths output_pdf s = (Ok true, s') /\
    st_files s' = (output_pdf, c) :: st_files s /\
    Forall (fun ops => captions ops = basename w <$> drawn_images ops)
      (canvas_pages c).
Proof.
  intros Hc Hs.
  destruct (create_a4_pdf_run w image_paths output_pdf s Hc Hs)
    as (c & lg & E & Hpages).
  exists c. eexists. split; [exact E |]. split; [done |].
  rewrite Hpages. unfold document_pages.
  destruct (paginate image_paths) as [| pg pgs]; [by repeat constructor |].
  apply Forall_fmap, Forall_forall. intros page _. cbn [compose].
  apply (captions_entries w page 0).
Qed.

Lemma captions_are_base_names_thirteen :
  canvas_ok world_missing_a = true /\
  save_ok world_missing_a = true /\
  exists c s',
    create_a4_pdf world_missing_a thirteen_images "out.pdf" initial_state
    = (Ok true, s') /\
    st_files s' = ("out.pdf"%string, c) :: st_files initial_state /\
    Forall (fun ops =>
              captions ops = basename world_missing_a <$> drawn_images ops)
      (canvas_pages c).
Proof.
  split; [reflexivity |]. split; [reflexivity |].
  apply (captions_are_base_names world_missing_a); reflexivity.
Defined.

(** * The grid spans the effective area *)

Lemma Qnat_S (n : nat) : Qnat (S n) == Qnat n + 1.
Proof.
  unfold Qnat. rewrite Nat2Z.inj_succ, <- Z.add_1_r, inject_Z_plus. reflexivity.
Qed.

Lemma Qnat_plus_1 (n : nat) : Qnat (n + 1) == Qnat n + 1.
Proof. rewrite Nat.add_1_r. apply Qnat_S. Qed.

(** In exact rational arithmetic the formulas of the grid satisfy, for
    every page size and margins: the left column starts at the margin and
    the right column ends at pageWidth - margin; the top row ends at
    pageHeight - margin and the bottom row starts at the margin; the gap
    between the two columns, and between a row and the next, is the inner
    margin.  (The program evaluates the same formulas in doubles, where
    these equalities hold up to rounding.) *)
Theorem grid_spans_effective_area (pageWidth pageHeight margin innerMargin : Q) :
  let box := computeCellBox pageWidth pageHeight margin innerMargin in
  box_x (box 0 0)%nat == margin /\
  box_x (box 0 1)%nat + box_w (box 0 1)%nat == pageWidth - margin /\
  box_x (box 0 1)%nat - (box_x (box 0 0)%nat + box_w (box 0 0)%nat)
  == innerMargin /\
  box_y (box 0 0)%nat + box_h (box 0 0)%nat == pageHeight - margin /\
  box_y (box 2 0)%nat == margin /\
  (forall row,
     box_y (box row 0%nat) - (box_y (box (S row) 0%nat) + box_h (box (S row) 0%nat))
     == innerMargin).
Proof.
  cbv zeta. unfold computeCellBox. cbn [box_x box_y box_w box_h].
  pose proof (img_width_twice pageWidth margin innerMargin) as Hw.
  pose proof (img_height_thrice pageHeight margin innerMargin) as Hh.
  unfold effective_width, effective_height in *.
  unfold cell_x, cell_y.
  change (Qnat 0) with 0. change (Qnat 1) with 1.
  change (Qnat (0 + 1)) with 1. change (Qnat 2) with 2.
  change (Qnat (2 + 1)) with 3.
  repeat split; try lra.
  intros row. rewrite !Qnat_plus_1, !Qnat_S.
  set (r := Qnat row).
  set (h := img_height pageHeight margin innerMargin) in *.
  ring.
Qed.

(** * Where an image and its caption go *)

Lemma a4_cell_positive :
  0 < img_width a4_width margin inner_margin /\
  0 < img_height a4_height margin inner_margin.
Proof. split; vm_compute; reflexivity. Qed.

Lemma a4_grid_hypotheses :
  0 < inner_margin /\ 0 < effective_width a4_width margin /\
  0 < effective_height a4_height margin.
Proof. repeat split; vm_compute; reflexivity. Qed.

Lemma fit_scale_bounds (imgWidth imgHeight : Z) (cellWidth cellHeight : Q) :
  (0 < imgWidth)%Z -> (0 < imgHeight)%Z -> 0 < cellWidth -> 0 < cellHeight ->
  let scale := fit_scale imgWidth imgHeight cellWidth cellHeight in
  0 < scale /\
  inject_Z imgWidth * scale <= cellWidth /\
  inject_Z imgHeight * scale <= cellHeight /\
  (inject_Z imgWidth * scale == cellWidth \/
   inject_Z imgHeight * scale == cellHeight).
Proof.
  intros Hiw Hih Hcw Hch. cbv zeta. unfold fit_scale.
  pose proof (inject_Z_pos _ Hiw) as Hw.
  pose proof (inject_Z_pos _ Hih) as Hh.
  pose proof (ratio_lt_cross imgWidth imgHeight cellWidth cellHeight
                Hih Hch) as Hcross.
  set (iw := inject_Z imgWidth) in *. set (ih := inject_Z imgHeight) in *.
  assert (0 < / iw) as Htw by (by apply Qinv_lt_0_compat).
  assert (0 < / ih) as Hth by (by apply Qinv_lt_0_compat).
  assert (iw * / iw == 1) as Eiw by (field; lra).
  assert (ih * / ih == 1) as Eih by (field; lra).
  destruct (Qltb _ _) eqn:E.
  - apply Qltb_lt, Hcross in E.
    assert (iw * (cellWidth / iw) == cellWidth) as Ew by (field; lra).
    assert (ih * (cellWidth / iw) == cellWidth * ih * / iw) as Eh
      by (field; lra).
    assert (cellWidth / iw == cellWidth * / iw) as Es by (field; lra).
    rewrite Ew, Eh, Es. set (t := / iw) in *.
    split; [nra |]. split; [lra |]. split; [nra | by left].
  - apply Qltb_ge in E.
    assert (~ cellWidth / cellHeight < iw / ih) as N by lra.
    rewrite Hcross in N.
    assert (ih * (cellHeight / ih) == cellHeight) as Eh by (field; lra).
    assert (iw * (cellHeight / ih) == iw * cellHeight * / ih) as Ew
      by (field; lra).
    assert (cellHeight / ih == cellHeight * / ih) as Es by (field; lra).
    rewrite Ew, Eh, Es. set (t := / ih) in *.
    split; [nra |]. split; [nra |]. split; [lra | by right].
Qed.

(** What [cell_ops] draws for a decodable, drawable image of positive size. *)
Lemma cell_ops_drawn w row col img_path width height :
  file w img_path = Decoded width height true ->
  (0 < width)%Z -> (0 < height)%Z ->
  let cell := computeCellBox a4_width a4_height margin inner_margin row col in
  let scale := fit_scale width height (box_w cell) (box_h cell) in
  cell_ops w row col img_path
  = [DrawImage img_path
       (box_x cell + (box_w cell - inject_Z width * scale) / 2)
       (box_y cell + (box_h cell - inject_Z height * scale) / 2)
       (inject_Z width * scale) (inject_Z height * scale);
     SetFont "Helvetica" 8;
     DrawString
       (box_x cell + (box_w cell - stringWidth w (basename w img_path)) / 2)
       (box_y cell - 15) (basename w img_path)].
Proof.
  intros Hfile Hw Hh. cbv zeta. unfold cell_ops. rewrite Hfile.
  destruct a4_cell_positive as [Hcw Hch].
  cbn [box_x box_y box_w box_h computeCellBox].
  rewrite (computePlacement_defined width height _ _ Hw Hh Hch).
  reflexivity.
Qed.

(** In exact rational arithmetic, an image of positive size is drawn
    inside the cell of its position, centred in it on both axes, with its
    ratio of width to height kept and as large as the cell allows; its
    caption is centred under the cell, on a baseline 15 points below it.
    (The program evaluates the same formulas in doubles: there the bounds
    and equalities hold up to rounding.) *)
Theorem place_image_geometry w i img_path s width height :
  file w img_path = Decoded width height true ->
  (0 < width)%Z -> (0 < height)%Z ->
  let cell :=
    computeCellBox a4_width a4_height margin inner_margin (i / 2) (i mod 2) in
  exists lg x y nw nh tx ty,
    place_image w i img_path s
    = (Ok tt,
       mkState
         (append_ops [DrawImage img_path x y nw nh; SetFont "Helvetica" 8;
                      DrawString tx ty (basename w img_path)] (st_canvas s))
         (st_log s ++ lg) (st_files s)) /\
    0 < nw /\ 0 < nh /\
    box_inside (mkBox x y nw nh) cell /\
    x - box_x cell == box_x cell + box_w cell - (x + nw) /\
    y - box_y cell == box_y cell + box_h cell - (y + nh) /\
    nw * inject_Z height == nh * inject_Z width /\
    (nw == box_w cell \/ nh == box_h cell) /\
    tx + stringWidth w (basename w img_path) / 2
    == box_x cell + box_w cell / 2 /\
    ty == box_y cell - 15.
Proof.
  intros Hfile Hw Hh. cbv zeta.
  destruct (place_image_draws w i img_path s) as [lg E].
  unfold entry_ops in E.
  rewrite (cell_ops_drawn w _ _ _ _ _ Hfile Hw Hh) in E.
  destruct a4_cell_positive as [Hcw Hch].
  set (cell := computeCellBox a4_width a4_height margin inner_margin
                 (i / 2) (i mod 2)) in *.
  change (box_w cell) with (img_width a4_width margin inner_margin) in *.
  change (box_h cell) with (img_height a4_height margin inner_margin) in *.
  destruct (fit_scale_bounds width height _ _ Hw Hh Hcw Hch)
    as (Hs & Hfw & Hfh & Htouch).
  pose proof (inject_Z_pos _ Hw) as Hiw.
  pose proof (inject_Z_pos _ Hh) as Hih.
  set (sc := fit_scale width height _ _) in *.
  set (cw := img_width a4_width margin inner_margin) in *.
  set (ch := img_height a4_height margin inner_margin) in *.
  set (iw := inject_Z width) in *. set (ih := inject_Z height) in *.
  do 7 eexists. split; [exact E |].
  unfold box_inside. cbn [box_x box_y box_w box_h].
  change (box_w cell) with cw. change (box_h cell) with ch.
  set (bx := box_x cell). set (by_ := box_y cell).
  set (tw := stringWidth w (basename w img_path)).
  assert ((cw - iw * sc) / 2 == (cw - iw * sc) * (1 # 2)) as E1 by field.
  assert ((ch - ih * sc) / 2 == (ch - ih * sc) * (1 # 2)) as E2 by field.
  assert ((cw - tw) / 2 == (cw - tw) * (1 # 2)) as E3 by field.
  assert (tw / 2 == tw * (1 # 2)) as E4 by field.
  assert (cw / 2 == cw * (1 # 2)) as E5 by field.
  rewrite E1, E2, E3, E4, E5.
  repeat split; try nra; lra.
Qed.

Lemma place_image_geometry_b :
  file world_missing_a "in/b.png" = Decoded 100 50 true /\
  (0 < 100)%Z /\ (0 < 50)%Z /\
  let cell :=
    computeCellBox a4_width a4_height margin inner_margin (1 / 2) (1 mod 2) in
  exists lg x y nw nh tx ty,
    place_image world_missing_a 1 "in/b.png" initial_state
    = (Ok tt,
       mkState
         (append_ops [DrawImage "in/b.png" x y nw nh; SetFont "Helvetica" 8;
                      DrawString tx ty (basename world_missing_a "in/b.png")]
            (st_canvas initial_state))
         (st_log initial_state ++ lg) (st_files initial_state)) /\
    0 < nw /\ 0 < nh /\
    box_inside (mkBox x y nw nh) cell /\
    x - box_x cell == box_x cell + box_w cell - (x + nw) /\
    y - box_y cell == box_y cell + box_h cell - (y + nh) /\
    nw * inject_Z 50 == nh * inject_Z 100 /\
    (nw == box_w cell \/ nh == box_h cell) /\
    tx + stringWidth world_missing_a (basename world_missing_a "in/b.png") / 2
    == box_x cell + box_w cell / 2 /\
    ty == box_y cell - 15.
Proof.
  split; [reflexivity |]. split; [lia |]. split; [lia |].
  apply (place_image_geometry world_missing_a 1 "in/b.png" initial_state 100 50);
    [reflexivity | lia | lia].
Defined.

Section Gutter.
Variables pageWidth pageHeight margin innerMargin : Q.
Hypothesis gutter_wide : 15 < innerMargin.
Hypothesis margin_wide : 15 < margin.

End Gutter.


(** * Images of a page keep clear of each other and of the page edges *)

Lemma box_inside_trans (a b c : Box) :
  box_inside a b -> box_inside b c -> box_inside a c.
Proof. unfold box_inside. intros H1 H2. lra. Qed.

Lemma box_clear_inside (d : Q) (b1 b2 c1 c2 : Box) :
  box_inside b1 c1 -> box_inside b2 c2 -> box_clear d c1 c2 ->
  box_clear d b1 b2.
Proof. unfold box_inside, box_clear. intros H1 H2 H. lra. Qed.

Lemma image_boxes_app ops1 ops2 :
  image_boxes (ops1 ++ ops2) = image_boxes ops1 ++ image_boxes ops2.
Proof. unfold image_boxes. apply bind_app. Qed.

Section ClearCells.
Variables pageWidth pageHeight margin innerMargin d : Q.
Hypothesis gutter_wider : d < innerMargin.
Hypothesis clearance_nonneg : 0 <= d.
Hypothesis cell_width_pos : 0 < img_width pageWidth margin innerMargin.
Hypothesis cell_height_pos : 0 < img_height pageHeight margin innerMargin.

(** Distinct cells are at least one inner margin apart. *)
Lemma cells_clear (row col row' col' : nat) :
  (row < 3)%nat -> (col < 2)%nat -> (row' < 3)%nat -> (col' < 2)%nat ->
  (row, col) <> (row', col') ->
  box_clear d (computeCellBox pageWidth pageHeight margin innerMargin row col)
    (computeCellBox pageWidth pageHeight margin innerMargin row' col').
Proof.
  intros Hr Hc Hr' Hc' Hne.
  destruct row as [| [| [| row]]]; [| | | lia];
    (destruct col as [| [| col]]; [| | lia]);
    (destruct row' as [| [| [| row']]]; [| | | lia]);
    (destruct col' as [| [| col']]; [| | lia]);
    try done;
    unfold box_clear;
    grid_arith pageWidth pageHeight margin innerMargin.
Qed.
End ClearCells.

Lemma cell_of_inside_area i :
  (i < 6)%nat ->
  box_inside (cell_of i) (effective_area a4_width a4_height margin).
Proof.
  intros Hi. destruct a4_grid_hypotheses as (H1 & H2 & H3).
  destruct (slot_cell_in_grid i Hi) as [Hr Hc].
  by apply cell_inside.
Qed.

Lemma cell_of_clear i j :
  (i < 6)%nat -> (j < 6)%nat -> i <> j -> box_clear 19 (cell_of i) (cell_of j).
Proof.
  intros Hi Hj Hne. destruct a4_cell_positive as [Hcw Hch].
  destruct (slot_cell_in_grid i Hi) as [Hr Hc].
  destruct (slot_cell_in_grid j Hj) as [Hr' Hc'].
  apply cells_clear; try done; try (vm_compute; reflexivity);
    try (vm_compute; discriminate).
  intros E. apply Hne, slot_cell_inj.
  by rewrite (surjective_pairing (slot_cell i)), (surjective_pairing (slot_cell j)).
Qed.

Lemma image_boxes_entry w i img_path :
  sizes_positive w ->
  image_boxes (entry_ops w i img_path) = [] \/
  exists b, image_boxes (entry_ops w i img_path) = [b] /\
            0 < box_w b /\ 0 < box_h b /\ box_inside b (cell_of i).
Proof.
  intros Hpos. unfold entry_ops.
  destruct (file w img_path) as [| | width height [|]] eqn:Hfile;
    try (left; unfold cell_ops; by rewrite Hfile).
  destruct (Hpos _ _ _ _ Hfile) as [Hw Hh].
  right. rewrite (cell_ops_drawn w _ _ _ _ _ Hfile Hw Hh).
  eexists. split; [reflexivity |].
  destruct a4_cell_positive as [Hcw Hch].
  unfold cell_of, slot_cell. cbn [fst snd].
  set (cell := computeCellBox a4_width a4_height margin inner_margin
                 (i / 2) (i mod 2)).
  change (box_w cell) with (img_width a4_width margin inner_margin).
  change (box_h cell) with (img_height a4_height margin inner_margin).
  destruct (fit_scale_bounds width height _ _ Hw Hh Hcw Hch)
    as (Hs & Hfw & Hfh & _).
  pose proof (inject_Z_pos _ Hw) as Hiw.
  pose proof (inject_Z_pos _ Hh) as Hih.
  set (sc := fit_scale width height _ _) in *.
  set (cw := img_width a4_width margin inner_margin) in *.
  set (ch := img_height a4_height margin inner_margin) in *.
  unfold box_inside. cbn [box_x box_y box_w box_h].
  change (box_w cell) with cw. change (box_h cell) with ch.
  assert ((cw - inject_Z width * sc) / 2
          == (cw - inject_Z width * sc) * (1 # 2)) as E1 by field.
  assert ((ch - inject_Z height * sc) / 2
          == (ch - inject_Z height * sc) * (1 # 2)) as E2 by field.
  rewrite E1, E2. repeat split; try nra; lra.
Qed.

Lemma page_boxes_clear w (page : list string) (k : nat) :
  sizes_positive w -> (k + length page <= 6)%nat ->
  let boxes :=
    image_boxes (concat (imap (fun j => entry_ops w (k + j)) page)) in
  ForallOrdPairs (box_clear 19) boxes /\
  Forall (fun b => 0 < box_w b /\ 0 < box_h b /\
                   exists i, (k <= i < k + length page)%nat /\
                             box_inside b (cell_of i)) boxes.
Proof.
  intros Hpos. cbv zeta. revert k.
  induction page as [| x page IH]; intros k Hk.
  - split; constructor.
  - rewrite imap_cons. cbn [concat length] in *.
    rewrite image_boxes_app, Nat.add_0_r.
    rewrite (imap_ext _ (fun j => entry_ops w (S k + j)) page)
      by (intros; simpl; f_equal; lia).
    destruct (IH (S k) ltac:(lia)) as [IHp IHf].
    assert (Forall (fun b => 0 < box_w b /\ 0 < box_h b /\
                             exists i, (k <= i < k + S (length page))%nat /\
                                       box_inside b (cell_of i))
              (image_boxes
                 (concat (imap (fun j => entry_ops w (S k + j)) page))))
      as IHf'.
    { eapply Forall_impl; [exact IHf |].
      intros b (Hbw & Hbh & i & Hi & Hb). split; [done |]. split; [done |].
      exists i. split; [lia | done]. }
    destruct (image_boxes_entry w k x Hpos)
      as [-> | (b & -> & Hbw & Hbh & Hb)].
    + by split.
    + cbn [app]. split.
      * constructor; [| exact IHp].
        apply List.Forall_forall. intros b' Hb'.
        apply (proj1 (List.Forall_forall _ _) IHf) in Hb'
          as (_ & _ & i & Hi & Hb'i).
        apply (box_clear_inside _ _ _ _ _ Hb Hb'i).
        apply cell_of_clear; lia.
      * constructor; [| exact IHf'].
        split; [done |]. split; [done |]. exists k. split; [lia | done].
Qed.

(** Images of positive size keep clear of each other and of the page
    edges: on every page of the saved canvas two images are more than 19
    points apart along one axis, and every image has a positive size and
    lies in the page less a border of 39 points.  (In exact arithmetic the
    distances are at least the 20 and 40 points of the two margins; the
    point of slack covers the rounding of the program's doubles.) *)
Theorem images_clear_of_each_other_and_edges w image_paths output_pdf s :
  sizes_positive w ->
  canvas_ok w = true -> save_ok w = true ->
  exists c s',
    create_a4_pdf w image_paths output_pdf s = (Ok true, s') /\
    st_files s' = (output_pdf, c) :: st_files s /\
    Forall (fun ops =>
              ForallOrdPairs (box_clear 19) (image_boxes ops) /\
              Forall (fun b =>
                        0 < box_w b /\ 0 < box_h b /\
                        box_inside b (effective_area a4_width a4_height 39))
                (image_boxes ops))
      (canvas_pages c).
Proof.
  intros Hpos Hc Hs.
  destruct (create_a4_pdf_run w image_paths output_pdf s Hc Hs)
    as (c & lg & E & Hpages).
  exists c. eexists. split; [exact E |]. split; [done |].
  rewrite Hpages. unfold document_pages.
  destruct (paginate image_paths) as [| pg pgs] eqn:Epg.
  { repeat constructor. }
  rewrite <- Epg. apply Forall_fmap, Forall_forall. intros page Hin.
  apply list_elem_of_lookup in Hin as [p Hp].
  apply paginate_page_length in Hp. cbn [compose].
  destruct (page_boxes_clear w page 0 Hpos ltac:(cbn; lia)) as [Hap Hin].
  split; [exact Hap |].
  eapply Forall_impl; [exact Hin |].
  intros b (Hbw & Hbh & i & Hi & Hb). cbn in Hi.
  split; [done |]. split; [done |].
  eapply box_inside_trans; [exact Hb |].
  eapply box_inside_trans; [apply cell_of_inside_area; lia |].
  unfold box_inside, effective_area, effective_width, effective_height.
  cbn [box_x box_y box_w box_h]. unfold margin. repeat split; lra.
Qed.

Lemma world_missing_a_sizes : sizes_positive world_missing_a.
Proof.
  intros img_path width height drawable. cbn.
  destruct (String.eqb img_path "in/a.png"); [done |].
  intros [= <- <- _]. lia.
Qed.

Lemma images_clear_of_each_other_and_edges_thirteen :
  sizes_positive world_missing_a /\
  canvas_ok world_missing_a = true /\ save_ok world_missing_a = true /\
  exists c s',
    create_a4_pdf world_missing_a thirteen_images "out.pdf" initial_state
    = (Ok true, s') /\
    st_files s' = ("out.pdf"%string, c) :: st_files initial_state /\
    Forall (fun ops =>
              ForallOrdPairs (box_clear 19) (image_boxes ops) /\
              Forall (fun b =>
                        0 < box_w b /\ 0 < box_h b /\
                        box_inside b (effective_area a4_width a4_height 39))
                (image_boxes ops))
      (canvas_pages c).
Proof.
  split; [exact world_missing_a_sizes |].
  split; [reflexivity |]. split; [reflexivity |].
  apply (images_clear_of_each_other_and_edges world_missing_a);
    [exact world_missing_a_sizes | reflexivity | reflexivity].
Defined.

Lemma batch_false_no_document_empty_folder :
  exists s',
    batch_process_folder world_empty_folder "in" None default_extensions
      initial_state = (Ok false, s') /\
    st_files s' = st_files initial_state /\
    (last (st_log s') = Some (ERROR, BatchFailed NotADirectoryError) \/
     last (st_log s') = Some (ERROR, BatchFailed OSError) \/
     last (st_log s') = Some (WARNING, NoImages)).
Proof.
  eexists. split; [vm_compute; reflexivity |].
  apply (batch_false_no_document world_empty_folder "in" None
           default_extensions initial_state).
  vm_compute. reflexivity.
Defined.

Lemma batch_writes_sorted_document_two_files :
  isdir world_missing_a "in" = true /\
  makedirs_ok world_missing_a
    (default (path_join world_missing_a "in" "pdf_output") None) = true /\
  found_images world_missing_a "in" default_extensions <> [] /\
  canvas_ok world_missing_a = true /\ save_ok world_missing_a = true /\
  exists c s',
    batch_process_folder world_missing_a "in" None default_extensions
      initial_state = (Ok true, s') /\
    st_files s'
    = (pdf_path world_missing_a "in" None, c) :: st_files initial_state /\
    canvas_pages c
    = document_pages world_missing_a
        (sort_names (found_images world_missing_a "in" default_extensions)) /\
    StronglySorted name_le (concat (drawn_images <$> canvas_pages c)) /\
    concat (drawn_images <$> canvas_pages c)
    ≡ₚ filter (fun p => placed world_missing_a p = true)
         (found_images world_missing_a "in" default_extensions) /\
    last (st_log s') = Some (INFO, BatchDone).
Proof.
  assert (found_images world_missing_a "in" default_extensions <> []) as Hne
    by (vm_compute; discriminate).
  split; [reflexivity |]. split; [reflexivity |]. split; [exact Hne |].
  split; [reflexivity |]. split; [reflexivity |].
  apply (batch_writes_sorted_document world_missing_a "in" None
           default_extensions initial_state);
    [reflexivity | reflexivity | exact Hne | reflexivity | reflexivity].
Defined.

(** * The log of [create_a4_pdf] *)

Lemma runs_ret : runs (mret tt) id [].
Proof. intros [c lg fs]. cbn. by rewrite app_nil_r. Qed.

Lemma runs_logging lvl msg : runs (logging lvl msg) id [(lvl, msg)].
Proof. by intros s. Qed.

Lemma runs_with_canvas f : runs (with_canvas f) f [].
Proof. intros s. unfold with_canvas. by rewrite app_nil_r. Qed.

Lemma runs_bind (m1 m2 : M unit) f g lg1 lg2 :
  runs m1 f lg1 -> runs m2 g lg2 -> runs (m1;; m2) (g ∘ f) (lg1 ++ lg2).
Proof.
  intros H1 H2 s. unfold mbind, M_bind. rewrite H1, H2. cbn.
  by rewrite app_assoc.
Qed.

Lemma runs_ext (m : M unit) f g lg lg' :
  (forall c, f c = g c) -> lg = lg' -> runs m f lg -> runs m g lg'.
Proof. intros E -> H s. by rewrite <- E. Qed.

Lemma runs_for_each {A} (body : A -> M unit) step logf (l : list A) :
  (forall x, runs (body x) (step x) (logf x)) ->
  runs (for_each l body) (run_all step l) (concat (logf <$> l)).
Proof.
  intros Hbody. induction l as [| x l IH]; cbn [for_each].
  - apply runs_ret.
  - eapply runs_ext; [| | exact (runs_bind _ _ _ _ _ _ (Hbody x) IH)]; done.
Qed.

Lemma place_image_runs w i img_path :
  runs (place_image w i img_path) (append_ops (entry_ops w i img_path))
    [entry_record w img_path].
Proof.
  intros [[fin cur] lg0 fs].
  unfold place_image, entry_ops, cell_ops, entry_record, try_except,
    path_exists, Image_open, drawImage, emit, with_canvas, logging, append_ops,
    from_option, mbind, M_bind, mret, M_ret, raise.
  cbn [box_x box_y box_w box_h computeCellBox].
  destruct (file w img_path) as [| | width height drawable];
    cbn -[Nat.div Nat.modulo computePlacement];
    try (by rewrite app_nil_r).
  destruct (computePlacement _ _ _ _) as [pl |], drawable;
    cbn -[Nat.div Nat.modulo computePlacement];
    try (by rewrite app_nil_r).
  by rewrite <- !app_assoc.
Qed.

Lemma entry_records_enumerate w (page : list string) (k : nat) :
  concat ((fun '(i, img_path) => [entry_record w img_path])
          <$> imap (fun j x => ((k + j)%nat, x)) page)
  = entry_record w <$> page.
Proof.
  revert k. induction page as [| x page IH]; intros k; [done |].
  rewrite imap_cons. cbn [fmap list_fmap concat app]. f_equal.
  rewrite (imap_ext _ (fun j x => ((S k + j)%nat, x)) page)
    by (intros; simpl; f_equal; lia).
  apply IH.
Qed.

Lemma place_page_runs w image_paths page_num :
  runs (place_page w image_paths page_num) (page_step w image_paths page_num)
    (page_log w image_paths page_num).
Proof.
  unfold place_page, page_step, page_log.
  set (more := (page_num <? total_pages (length image_paths) - 1)%nat).
  assert (runs (if more then showPage else mret tt)
            (fun c => if more then close_page c else c) []) as Hlast.
  { destruct more; [apply (runs_with_canvas close_page) | apply runs_ret]. }
  assert (runs
            (for_each (enumerate (page_images image_paths page_num))
               (fun '(i, img_path) => place_image w i img_path))
            (append_ops (page_ops w (page_images image_paths page_num)))
            (entry_record w <$> page_images image_paths page_num))
    as Hpage.
  { eapply runs_ext;
      [| | apply (runs_for_each _
                  (fun '(i, img_path) => append_ops (entry_ops w i img_path))
                  (fun '(i, img_path) => [entry_record w img_path]));
         intros [i img_path]; apply place_image_runs].
    - intros c. apply (run_all_entries w _ 0 c).
    - apply (entry_records_enumerate w _ 0). }
  eapply runs_ext;
    [| | exact (runs_bind _ _ _ _ _ _ (runs_logging _ _)
                  (runs_bind _ _ _ _ _ _ Hpage Hlast))].
  - done.
  - cbn [app]. by rewrite app_nil_r.
Qed.

Lemma emitted_app lg1 lg2 : emitted (lg1 ++ lg2) = emitted lg1 ++ emitted lg2.
Proof. unfold emitted. apply filter_app. Qed.

Lemma entry_record_cases w img_path :
  (placed w img_path = true /\
   entry_record w img_path = (DEBUG, ImageAdded (basename w img_path))) \/
  (placed w img_path = false /\ file w img_path = Missing /\
   entry_record w img_path = (WARNING, ImageMissing img_path)) \/
  (placed w img_path = false /\ file w img_path <> Missing /\
   exists e, entry_record w img_path = (ERROR, ImageFailed img_path e)).
Proof.
  unfold placed, entry_record.
  destruct (file w img_path) as [| | width height drawable].
  - right. left. done.
  - right. right. split; [done |]. split; [done |]. by eexists.
  - destruct (computePlacement _ _ _ _) as [pl |], drawable.
    + left. split; [| done]. apply bool_decide_eq_true_2. by eexists.
    + right. right. split; [done |]. split; [done |]. by eexists.
    + right. right. split; [| split; [done | by eexists]].
      apply bool_decide_eq_false_2. by intros [? ?].
    + right. right. split; [done |]. split; [done |]. by eexists.
Qed.

Lemma emitted_entry_records w (page : list string) :
  emitted (entry_record w <$> page)
  = entry_record w <$> filter (fun p => placed w p = false) page.
Proof.
  induction page as [| x page IH]; [done |].
  cbn [fmap list_fmap]. unfold emitted in *.
  destruct (entry_record_cases w x)
    as [[Hp E] | [(Hp & _ & E) | (Hp & _ & e & E)]].
  - rewrite (filter_cons_False _ (entry_record w x))
      by (rewrite E; vm_compute; by intros H).
    rewrite (filter_cons_False _ x) by congruence. exact IH.
  - rewrite (filter_cons_True _ (entry_record w x))
      by (rewrite E; vm_compute; discriminate).
    rewrite (filter_cons_True _ x) by done.
    cbn [fmap list_fmap]. by rewrite IH.
  - rewrite (filter_cons_True _ (entry_record w x))
      by (rewrite E; vm_compute; discriminate).
    rewrite (filter_cons_True _ x) by done.
    cbn [fmap list_fmap]. by rewrite IH.
Qed.

Lemma emitted_page_logs w image_paths (pages : list nat) :
  emitted (concat (page_log w image_paths <$> pages))
  = entry_record w
    <$> filter (fun p => placed w p = false)
          (concat (page_images image_paths <$> pages)).
Proof.
  induction pages as [| n pages IH]; [done |].
  cbn [fmap list_fmap concat].
  rewrite emitted_app, IH, filter_app, fmap_app. f_equal.
  unfold page_log.
  change (?r :: ?l) with ([r] ++ l). rewrite emitted_app, emitted_entry_records.
  done.
Qed.

(** What a successful [create_a4_pdf] leaves in the log at the level INFO
    that [setup_logging] configures: the number of pages, then one record
    for every entry that is not drawn, in input order (a WARNING for a
    missing file, an ERROR with the exception otherwise), then the name of
    the document.  Drawn entries and page starts are logged at DEBUG and
    leave no record. *)
Theorem create_a4_pdf_emitted_log w image_paths output_pdf s :
  canvas_ok w = true -> save_ok w = true ->
  exists c lg,
    create_a4_pdf w image_paths output_pdf s
    = (Ok true, mkState c (st_log s ++ lg) ((output_pdf, c) :: st_files s)) /\
    emitted lg
    = [(INFO, PlannedPages (total_pages (length image_paths)))]
      ++ (entry_record w <$> filter (fun p => placed w p = false) image_paths)
      ++ [(INFO, PdfGenerated output_pdf)] /\
    (forall img_path,
       placed w img_path = false ->
       (file w img_path = Missing /\
        entry_record w img_path = (WARNING, ImageMissing img_path)) \/
       (file w img_path <> Missing /\
        exists e, entry_record w img_path = (ERROR, ImageFailed img_path e))).
Proof.
  intros Hc Hs.
  pose proof (runs_for_each (place_page w image_paths)
                (page_step w image_paths) (page_log w image_paths)
                (seq 0 (total_pages (length image_paths)))
                (place_page_runs w image_paths)) as Hloop.
  exists (run_all (page_step w image_paths)
            (seq 0 (total_pages (length image_paths))) (mkCanvas [] [])).
  exists ([(INFO, PlannedPages (total_pages (length image_paths)))]
          ++ concat (page_log w image_paths
                     <$> seq 0 (total_pages (length image_paths)))
          ++ [(INFO, PdfGenerated output_pdf)]).
  split; [| split].
  - unfold create_a4_pdf, try_except, new_canvas, save, with_canvas, logging,
      mbind, M_bind, mret, M_ret.
    rewrite Hc, Hs. cbn [st_canvas st_log st_files].
    rewrite Hloop. cbn [st_canvas st_log st_files].
    rewrite <- !app_assoc. reflexivity.
  - rewrite !emitted_app, emitted_page_logs.
    change (concat (page_images image_paths
                    <$> seq 0 (total_pages (length image_paths))))
      with (concat (paginate image_paths)).
    rewrite concat_paginate. reflexivity.
  - intros img_path Hp.
    destruct (entry_record_cases w img_path)
      as [[Hp' _] | [(_ & Hf & E) | (_ & Hf & E)]]; [congruence | auto ..].
Qed.

Lemma create_a4_pdf_emitted_log_two_entries :
  canvas_ok world_missing_a = true /\ save_ok world_missing_a = true /\
  exists c lg,
    create_a4_pdf world_missing_a ["in/a.png"; "in/b.png"]%string "out.pdf"
      initial_state
    = (Ok true,
       mkState c (st_log initial_state ++ lg)
         (("out.pdf"%string, c) :: st_files initial_state)) /\
    emitted lg
    = [(INFO, PlannedPages (total_pages (length ["in/a.png"; "in/b.png"]%string)))]
      ++ (entry_record world_missing_a
          <$> filter (fun p => placed world_missing_a p = false)
                ["in/a.png"; "in/b.png"]%string)
      ++ [(INFO, PdfGenerated "out.pdf")] /\
    (forall img_path,
       placed world_missing_a img_path = false ->
       (file world_missing_a img_path = Missing /\
        entry_record world_missing_a img_path
        = (WARNING, ImageMissing img_path)) \/
       (file world_missing_a img_path <> Missing /\
        exists e,
          entry_record world_missing_a img_path
          = (ERROR, ImageFailed img_path e))).
Proof.
  split; [reflexivity |]. split; [reflexivity |].
  apply (create_a4_pdf_emitted_log world_missing_a); reflexivity.
Defined.

(** * Which entries are drawn *)

Lemma inject_Z_eq_0 (z : Z) : inject_Z z == 0 <-> z = 0%Z.
Proof. unfold Qeq. cbn. lia. Qed.

Lemma truediv_zero (a b : Q) : b == 0 -> truediv a b = None.
Proof. intros Hb. unfold truediv. by rewrite (Qeq_eq_bool _ _ Hb). Qed.

Lemma truediv_by_zero_height (a : Q) : truediv a (inject_Z 0) = None.
Proof. by apply truediv_zero. Qed.

(** In a cell of the A4 grid the placement is undefined for the images of
    height 0, and for no other. *)
Lemma computePlacement_a4_None (width height : Z) :
  computePlacement width height (img_width a4_width margin inner_margin)
    (img_height a4_height margin inner_margin) = None
  <-> height = 0%Z.
Proof.
  destruct a4_cell_positive as [Hcw Hch].
  set (cw := img_width a4_width margin inner_margin) in *.
  set (ch := img_height a4_height margin inner_margin) in *.
  unfold computePlacement. split.
  - intros H. destruct (Z.eq_dec height 0%Z) as [| Hh]; [done |]. exfalso.
    rewrite (truediv_nonzero (inject_Z width) (inject_Z height)) in H
      by (by rewrite inject_Z_eq_0).
    rewrite (truediv_nonzero cw ch) in H by lra.
    cbn [mbind option_bind] in H.
    destruct (Qltb (cw / ch) (inject_Z width / inject_Z height)) eqn:E.
    + destruct (Z.eq_dec width 0%Z) as [-> | Hw].
      * apply Qltb_lt in E.
        assert (inject_Z 0 / inject_Z height == 0) as E0
          by (unfold Qdiv; ring).
        assert (0 < cw / ch) as Hpos
          by (apply Qlt_shift_div_l; lra).
        lra.
      * rewrite (truediv_nonzero cw (inject_Z width)) in H
          by (by rewrite inject_Z_eq_0).
        done.
    + rewrite (truediv_nonzero ch (inject_Z height)) in H
        by (by rewrite inject_Z_eq_0).
      done.
  - intros ->. by rewrite truediv_by_zero_height.
Qed.

(** The loop body, case by case, for every file but a decoded image of
    height 0: it always returns normally.  For a missing file, a file that
    does not decode and an image the canvas refuses it draws nothing, and
    one record reaches the log at the configured level: a WARNING for the
    missing file, an ERROR with the exception for the others.  Otherwise it
    draws the image, the font setting and the caption, and nothing reaches
    the log (the success is logged at DEBUG). *)
Theorem place_image_outcome w i img_path s :
  (forall width drawable, file w img_path <> Decoded width 0 drawable) ->
  exists ops lg,
    place_image w i img_path s
    = (Ok tt,
       mkState (append_ops ops (st_canvas s)) (st_log s ++ lg) (st_files s)) /\
    match file w img_path with
    | Missing => ops = [] /\ emitted lg = [(WARNING, ImageMissing img_path)]
    | Undecodable =>
        ops = [] /\
        emitted lg = [(ERROR, ImageFailed img_path UnidentifiedImageError)]
    | Decoded width height true =>
        emitted lg = [] /\
        exists x y nw nh tx ty,
          ops = [DrawImage img_path x y nw nh; SetFont "Helvetica" 8;
                 DrawString tx ty (basename w img_path)]
    | Decoded width height false =>
        ops = [] /\ emitted lg = [(ERROR, ImageFailed img_path DrawError)]
    end.
Proof.
  intros Hheight.
  exists (entry_ops w i img_path), [entry_record w img_path].
  split; [apply place_image_runs |].
  unfold entry_ops, cell_ops, entry_record.
  cbn [box_x box_y box_w box_h computeCellBox].
  destruct (file w img_path) as [| | width height drawable] eqn:Hfile;
    try done.
  pose proof (computePlacement_a4_None width height) as Hnone.
  destruct (computePlacement _ _ _ _) as [pl |] eqn:E.
  - destruct drawable; [| done]. split; [done |]. by do 6 eexists.
  - assert (height = 0%Z) as -> by (by apply Hnone).
    by destruct (Hheight width drawable).
Qed.

Lemma place_image_outcome_b :
  (forall width drawable,
     file world_missing_a "in/b.png" <> Decoded width 0 drawable) /\
  exists ops lg,
    place_image world_missing_a 1 "in/b.png" initial_state
    = (Ok tt,
       mkState (append_ops ops (st_canvas initial_state))
         (st_log initial_state ++ lg) (st_files initial_state)) /\
    match file world_missing_a "in/b.png" with
    | Missing => ops = [] /\ emitted lg = [(WARNING, ImageMissing "in/b.png")]
    | Undecodable =>
        ops = [] /\
        emitted lg = [(ERROR, ImageFailed "in/b.png" UnidentifiedImageError)]
    | Decoded width height true =>
        emitted lg = [] /\
        exists x y nw nh tx ty,
          ops = [DrawImage "in/b.png" x y nw nh; SetFont "Helvetica" 8;
                 DrawString tx ty (basename world_missing_a "in/b.png")]
    | Decoded width height false =>
        ops = [] /\ emitted lg = [(ERROR, ImageFailed "in/b.png" DrawError)]
    end.
Proof.
  assert (forall width drawable,
            file world_missing_a "in/b.png" <> Decoded width 0 drawable) as H
    by (intros width drawable; vm_compute; discriminate).
  split; [exact H |].
  exact (place_image_outcome world_missing_a 1 "in/b.png" initial_state H).
Defined.

(** * Saves completed by a batch *)

(** A batch completes the save of a document exactly when the input is a
    directory, the output folder can be made, a file matched, and the
    canvas could be created and [c.save()] returned; it is then its only
    save, for [output_folder/images_<timestamp>.pdf] and the pages of the
    sorted files.  In every other case no save is completed: either
    [create_a4_pdf] is not called, or the canvas is not created, or
    [c.save()] raises. *)
Theorem batch_save_completed_iff w input_folder output_folder
    image_extensions s :
  exists b s',
    batch_process_folder w input_folder output_folder image_extensions s
    = (Ok b, s') /\
    if isdir w input_folder
       && makedirs_ok w
            (default (path_join w input_folder "pdf_output") output_folder)
       && negb (length (sort_names
                          (found_images w input_folder image_extensions))
                =? 0)%nat
       && canvas_ok w && save_ok w
    then
      exists c,
        st_files s' = (pdf_path w input_folder output_folder, c) :: st_files s /\
        canvas_pages c
        = document_pages w
            (sort_names (found_images w input_folder image_extensions))
    else st_files s' = st_files s.
Proof.
  destruct (isdir w input_folder) eqn:Hdir.
  2: { rewrite batch_not_a_directory by done. by eexists _, _. }
  destruct (makedirs_ok w
              (default (path_join w input_folder "pdf_output") output_folder))
    eqn:Hmk.
  2: { rewrite batch_no_output_folder by done. by eexists _, _. }
  destruct (sort_names (found_images w input_folder image_extensions))
    as [| f fs] eqn:Esort.
  { destruct (batch_no_images w input_folder output_folder image_extensions s
                Hdir Hmk Esort) as [lg ->]. by eexists _, _. }
  assert (sort_names (found_images w input_folder image_extensions) <> [])
    as Hne by (by rewrite Esort).
  destruct (batch_attempt w input_folder output_folder image_extensions s
              Hdir Hmk Hne) as (s0 & b & s1 & Hf & E & ->).
  rewrite Esort in E. eexists _, _. split; [reflexivity |].
  cbn [length Nat.eqb negb andb st_files].
  destruct (canvas_ok w) eqn:Hc; [destruct (save_ok w) eqn:Hs |]; cbn [andb].
  - destruct (create_a4_pdf_run w (f :: fs)
                (pdf_path w input_folder output_folder) s0 Hc Hs)
      as (c & lg & E' & Hpages).
    rewrite E' in E. injection E as <- <-. cbn [st_files].
    exists c. by rewrite Hf.
  - destruct (create_a4_pdf_no_save w (f :: fs)
                (pdf_path w input_folder output_folder) s0 Hc Hs)
      as (c & lg & E' & _).
    rewrite E' in E. injection E as <- <-. done.
  - rewrite create_a4_pdf_no_canvas in E by done.
    injection E as <- <-. done.
Qed.
